(** * The Bazaar client of rbtools ([rbtools/clients/bazaar.py])

    A shallow embedding of [BazaarClient]: the client shells out to [bzr],
    reads what the tool printed and fills the caller's options.  Python
    strings are [string]s, [None]-or-string values are [option string],
    the options object and the record of what was run form the state that
    every method threads, and a Python exception is an error result. *)

From Stdlib Require Import String Ascii List Bool Arith ZArith Lia.
Import ListNotations.
Local Open Scope string_scope.
Local Open Scope list_scope.

(** ** Python string operations used by the client *)

Module PyStr.

(** [str.rstrip()] removes trailing whitespace; for a byte string that
    is space, tab, newline, carriage return, vertical tab and form feed. *)
Definition is_space (c : ascii) : bool :=
  let n := nat_of_ascii c in
  ((n =? 32) || ((9 <=? n) && (n <=? 13)))%nat.

Definition is_empty (s : string) : bool :=
  match s with
  | EmptyString => true
  | String _ _ => false
  end.

Fixpoint all_space (s : string) : bool :=
  match s with
  | EmptyString => true
  | String c r => is_space c && all_space r
  end.

Fixpoint rstrip (s : string) : string :=
  match s with
  | EmptyString => EmptyString
  | String c r =>
      if is_space c && all_space r then EmptyString
      else String c (rstrip r)
  end.

(** [sub in s] *)
Fixpoint contains (sub s : string) : bool :=
  String.prefix sub s ||
  match s with
  | EmptyString => false
  | String _ r => contains sub r
  end.

(** [s[k:]] for [k >= 0]; past the end it is the empty string. *)
Fixpoint slice_from (k : nat) (s : string) : string :=
  match k, s with
  | O, _ => s
  | S _, EmptyString => EmptyString
  | S k', String _ r => slice_from k' r
  end.

(** [s.split(sep)] for a non-empty [sep]: pieces between the
    occurrences of [sep], found left to right without overlap.
    [skip] counts the characters of a separator still to pass over,
    [cur] is the piece being read. *)
Fixpoint split_from (sep : string) (skip : nat) (cur s : string)
  : list string :=
  match s with
  | EmptyString => [cur]
  | String c r =>
      match skip with
      | S k => split_from sep k cur r
      | O =>
          if String.prefix sep s
          then cur :: split_from sep (String.length sep - 1) EmptyString r
          else split_from sep 0 (cur ++ String c EmptyString)%string r
      end
  end.

Definition split (sep s : string) : list string :=
  split_from sep 0 EmptyString s.

(** The double quote character, written by its code. *)
Definition dquote : string := String (ascii_of_nat 34) EmptyString.

(** [sub] occurs in [s]: the meaning of Python's [sub in s]. *)
Definition occurs_in (sub s : string) : Prop :=
  exists pre post, s = (pre ++ sub ++ post)%string.

(** [v] is [s] without its trailing whitespace: [s] is [v] followed by
    whitespace only, and [v] does not end in whitespace. *)
Definition stripped_of (s v : string) : Prop :=
  (exists ws, all_space ws = true /\ s = (v ++ ws)%string) /\
  (forall body c, v = (body ++ String c "")%string -> is_space c = false).

End PyStr.

(** ** The regular expression of [_extract_summary] *)

Module Re.

(** One position of a pattern: [\d] or a literal character. *)
Inductive atom : Type :=
| Digit
| Lit (c : ascii).

Definition is_digit (c : ascii) : bool :=
  let n := nat_of_ascii c in ((48 <=? n) && (n <=? 57))%nat.

Definition atom_matches (a : atom) (c : ascii) : bool :=
  match a with
  | Digit => is_digit c
  | Lit c' => Ascii.eqb c' c
  end.

(** The pattern matches at the start of [s]. *)
Fixpoint match_here (pat : list atom) (s : string) : bool :=
  match pat, s with
  | [], _ => true
  | _ :: _, EmptyString => false
  | a :: pat', String c r => atom_matches a c && match_here pat' r
  end.

(** The whole of [s] matches the pattern. *)
Fixpoint fullmatch (pat : list atom) (s : string) : bool :=
  match pat, s with
  | [], EmptyString => true
  | a :: pat', String c r => atom_matches a c && fullmatch pat' r
  | _, _ => false
  end.

(** [re.search(pat, s)]: the leftmost match, as the result's
    [start()] and [end()], or [None]. *)
Fixpoint search_from (pat : list atom) (pos : nat) (s : string)
  : option (nat * nat) :=
  if match_here pat s then Some (pos, pos + List.length pat)
  else
    match s with
    | EmptyString => None
    | String _ r => search_from pat (S pos) r
    end.

Definition search (pat : list atom) (s : string) : option (nat * nat) :=
  search_from pat 0 s.

Definition match_end (m : nat * nat) : nat := snd m.

(** [\d{4}-\d{2}-\d{2}] *)
Definition iso_date : list atom :=
  repeat Digit 4 ++ [Lit "-"%char] ++ repeat Digit 2 ++
  [Lit "-"%char] ++ repeat Digit 2.

(** Some substring of [s] matches the pattern. *)
Definition matched_in (pat : list atom) (s : string) : Prop :=
  exists pre d post,
    s = (pre ++ d ++ post)%string /\ fullmatch pat d = true.

(** The first match: [d] matches after [pre], and the pattern matches
    nowhere earlier. *)
Definition first_match (pat : list atom) (s pre d post : string) : Prop :=
  s = (pre ++ d ++ post)%string /\ fullmatch pat d = true /\
  forall pre' d' post',
    s = (pre' ++ d' ++ post')%string -> fullmatch pat d' = true ->
    String.length pre <= String.length pre'.

End Re.

(** ** State, errors and the outside world *)

(** [self.options], the object the caller owns and the client fills. *)
Record Options : Type := mkOptions {
  repository_url : option string;
  parent_branch : option string;
  guess_summary : bool;
  guess_description : bool;
  summary : option string;
  description : option string
}.

Record RepositoryInfo : Type := mkRepositoryInfo {
  path : string;
  base_path : string;
  supports_parent_diffs : bool
}.

(** What the client does that is visible from outside, in order. *)
Inductive event : Type :=
| CheckInstall (command : string)
| Execute (argv : list string)
| Print (items : list string)
| Debug (msg : string).

Inductive exn : Type :=
| SystemExit
| NameError
| AttributeError
| IndexError.

Inductive result (A : Type) : Type :=
| Ok (a : A)
| Raise (e : exn).
Arguments Ok {A} a.
Arguments Raise {A} e.

Record World : Type := mkWorld {
  options : Options;
  trace : list event
}.

(** The world after further visible steps, the options as they were. *)
Definition after (w : World) (evs : list event) : World :=
  mkWorld (options w) (trace w ++ evs).

(** A method: it reads and updates the world and returns or raises.
    What was done before an exception stays done. *)
Definition M (A : Type) : Type := World -> result A * World.

Definition ret {A} (a : A) : M A := fun w => (Ok a, w).

Definition bind {A B} (m : M A) (k : A -> M B) : M B :=
  fun w =>
    match m w with
    | (Ok a, w') => k a w'
    | (Raise e, w') => (Raise e, w')
    end.

Definition raise {A} (e : exn) : M A := fun w => (Raise e, w).

Definition emit (ev : event) : M unit :=
  fun w => (Ok tt, mkWorld (options w) (trace w ++ [ev])).

Definition get_options : M Options := fun w => (Ok (options w), w).

(** [self.options.summary = v] and [self.options.description = v] *)
Definition with_summary (o : Options) (v : string) : Options :=
  mkOptions (repository_url o) (parent_branch o)
            (guess_summary o) (guess_description o)
            (Some v) (description o).

Definition with_description (o : Options) (v : string) : Options :=
  mkOptions (repository_url o) (parent_branch o)
            (guess_summary o) (guess_description o)
            (summary o) (Some v).

Definition set_summary_field (v : string) : M unit :=
  fun w => (Ok tt, mkWorld (with_summary (options w) v) (trace w)).

Definition set_description_field (v : string) : M unit :=
  fun w => (Ok tt, mkWorld (with_description (options w) v) (trace w)).

Declare Scope py_scope.
Delimit Scope py_scope with py.
Notation "x <- m ;; k" := (bind m (fun x => k))
  (at level 61, m at next level, right associativity) : py_scope.
Notation "m ;; k" := (bind m (fun _ => k))
  (at level 61, right associativity) : py_scope.
Local Open Scope py_scope.

(** Python truth of a value that is [None] or a string. *)
Definition truthy (v : option string) : bool :=
  match v with
  | Some (String _ _) => true
  | _ => false
  end.

(** [v or default] *)
Definition or_else {A} (v : option (list A)) (default : list A) : list A :=
  match v with
  | Some (x :: l) => x :: l
  | _ => default
  end.

Definition str_of (v : option string) : string :=
  match v with
  | Some s => s
  | None => EmptyString
  end.

(** ** The client *)

Section Client.

(** The outside world.  What [check_install] answers and what a
    subprocess exits with and prints may depend on everything run so
    far. *)
Variable check_install_result : list event -> string -> bool.
Variable process : list event -> list string -> Z * string.

(** The module calls [debug] in [_extract_summary] and
    [_extract_description] but neither defines nor imports the name:
    its imports are [os], [re], [sys], [SCMClient], [RepositoryInfo],
    [check_install], [die], [execute] and [workingtree].  Python looks
    a global name up when the call runs.  [debug_defined = false] is the
    module as it stands, where the call raises NameError;
    [debug_defined = true] is the module with a logging function bound
    to the name, which records the message and returns. *)
Variable debug_defined : bool.

Definition debug (msg : string) : M unit :=
  if debug_defined then emit (Debug msg) else raise NameError.

(** Modelled from the spec: the installation-check facility
    [checkInstall(command) -> bool] of [rbtools.utils.checks], which is
    not part of this module. *)
Definition check_install (command : string) : M bool :=
  fun w =>
    (Ok (check_install_result (trace w) command),
     mkWorld (options w) (trace w ++ [CheckInstall command])).

(** Modelled from the spec: the process-execution facility
    [execute(argv, ignoreErrors, extraIgnoreErrors) -> string] of
    [rbtools.utils.process], which is not part of this module.  It
    returns what the command printed; an exit status that is neither
    zero nor ignored ends the whole run ([die]). *)
Definition execute (command : list string) (ignore_errors : bool)
    (extra_ignore_errors : list Z) : M string :=
  fun w =>
    let '(rc, out) := process (trace w) command in
    let w' := mkWorld (options w) (trace w ++ [Execute command]) in
    if (rc =? 0)%Z || ignore_errors || existsb (Z.eqb rc) extra_ignore_errors
    then (Ok out, w')
    else (Raise SystemExit, w').

Definition config_missing_message (name : string) : string :=
  ("ERROR: The " ++ PyStr.dquote ++ name ++ PyStr.dquote ++
   " configuration option does not exist.")%string.

Definition _get_config (name : string) : M (option string) :=
  value <- execute ["bzr"; "config"; name] false [3%Z] ;;
  if PyStr.contains (config_missing_message name) value
  then ret None
  else ret (Some (PyStr.rstrip value)).

(** The loop of [get_repository_info] over the configuration keys, with
    its [break]. *)
Fixpoint first_branch (locations : list string) (branch : option string)
  : M (option string) :=
  match locations with
  | [] => ret branch
  | location :: rest =>
      branch <- _get_config location ;;
      match branch with
      | Some _ => ret branch
      | None => first_branch rest branch
      end
  end.

Definition get_repository_info : M (option RepositoryInfo) :=
  installed <- check_install "bzr help" ;;
  if negb installed then ret None
  else
    o <- get_options ;;
    if truthy (repository_url o)
    then ret (Some (mkRepositoryInfo (str_of (repository_url o)) "/" true))
    else
      branch <- first_branch ["submit_branch"; "parent_location"] None ;;
      match branch with
      | None => ret None
      | Some b => ret (Some (mkRepositoryInfo b "/" true))
      end.

(** [SCMClient.scan_for_server], the scan of the base class in
    [rbtools.clients], which is not part of this module: it is taken as
    it comes. *)
Variable base_scan_for_server : option RepositoryInfo -> M (option string).

Definition scan_for_server (repository_info : option RepositoryInfo)
  : M (option string) :=
  server_url <- _get_config "reviewboard_url" ;;
  match server_url with
  | Some _ => ret server_url
  | None => base_scan_for_server repository_info
  end.

Definition _get_range_diff (revision_range : string) (files : list string)
  : M (option string) :=
  let diff_cmd := ["bzr"; "dif"; "-q"; "-r"; revision_range] in
  emit (Print (diff_cmd ++ files)) ;;
  diff <- execute (diff_cmd ++ files) true [] ;;
  ret (if PyStr.is_empty diff then None else Some diff).

Definition _extract_summary (revision : string) : M string :=
  out <- execute ["bzr"; "log"; "-r"; revision; "--line"] false [] ;;
  let log_message := PyStr.rstrip out in
  let log_message_match := Re.search Re.iso_date log_message in
  match log_message_match with
  | None => raise AttributeError
  | Some m =>
      let truncated_characters := Re.match_end m + 1 in
      let summary := PyStr.slice_from truncated_characters log_message in
      debug ("Summary: " ++ summary)%string ;;
      ret summary
  end.

Definition newline : string := String (ascii_of_nat 10) EmptyString.

Definition _extract_description (revision_range : option string)
  : M string :=
  o <- get_options ;;
  let command := ["bzr"] in
  let command :=
    if truthy revision_range
    then command ++ ["log"; "-n1"; "--gnu-changelog";
                     "--exclude-common-ancestry";
                     "-r"; str_of revision_range]
    else
      let branch :=
        if truthy (parent_branch o) then str_of (parent_branch o)
        else ":submit" in
      command ++ ["missing"; "-q"; "--mine-only"; "--gnu-changelog"; branch]
  in
  let command := command ++ ["--short"] in
  out <- execute command true [] ;;
  let changelog := PyStr.rstrip out in
  debug ("Changelog:" ++ newline ++ changelog)%string ;;
  ret changelog.

Definition _set_summary (revision : string) : M unit :=
  o <- get_options ;;
  if guess_summary o && negb (truthy (summary o))
  then v <- _extract_summary revision ;; set_summary_field v
  else ret tt.

Definition _set_description (revision_range : option string) : M unit :=
  o <- get_options ;;
  if guess_description o && negb (truthy (description o))
  then v <- _extract_description revision_range ;; set_description_field v
  else ret tt.

Definition diff (files : option (list string))
  : M (option string * option string) :=
  let files := or_else files [] in
  o <- get_options ;;
  let revision_range :=
    if truthy (parent_branch o)
    then ("ancestor:" ++ str_of (parent_branch o) ++ "..")%string
    else "submit:.." in
  diff <- _get_range_diff revision_range files ;;
  _set_summary "-1" ;;
  _set_description (Some revision_range) ;;
  ret (diff, None).

Definition diff_between_revisions (revision_range : string)
    (files : list string) (repository_info : option RepositoryInfo)
  : M (option string) :=
  diff <- _get_range_diff revision_range files ;;
  match nth_error (PyStr.split ".." revision_range) 1 with
  | None => raise IndexError
  | Some last_revision =>
      _set_summary last_revision ;;
      _set_description (Some revision_range) ;;
      ret diff
  end.

End Client.

(** ** What a run may change *)

(** From [o] to [o'] nothing changed but, at most, a summary that was to
    be guessed and empty, and a description that was to be guessed and
    empty. *)
Definition only_fills (o o' : Options) : Prop :=
  repository_url o' = repository_url o /\
  parent_branch o' = parent_branch o /\
  guess_summary o' = guess_summary o /\
  guess_description o' = guess_description o /\
  (summary o' = summary o \/
   (guess_summary o = true /\ truthy (summary o) = false)) /\
  (description o' = description o \/
   (guess_description o = true /\ truthy (description o) = false)).

(** From [w] to [w'] the options were only filled and the trace only
    grew. *)
Definition advances (w w' : World) : Prop :=
  only_fills (options w) (options w') /\
  exists evs, trace w' = trace w ++ evs.

(** The command line [_extract_description] puts together. *)
Definition changelog_command (o : Options) (revision_range : option string)
  : list string :=
  if truthy revision_range
  then ["bzr"; "log"; "-n1"; "--gnu-changelog"; "--exclude-common-ancestry";
        "-r"; str_of revision_range; "--short"]
  else ["bzr"; "missing"; "-q"; "--mine-only"; "--gnu-changelog";
        (if truthy (parent_branch o) then str_of (parent_branch o)
         else ":submit");
        "--short"].

(** [ev] runs [bzr missing]. *)
Definition runs_missing (ev : event) : bool :=
  match ev with
  | Execute (_ :: sub :: _) => String.eqb sub "missing"
  | _ => false
  end.

(** From [w] to [w'] the trace grew by events that all pass [ok]. *)
Definition grows_by (ok : event -> bool) (w w' : World) : Prop :=
  exists evs, trace w' = trace w ++ evs /\ forallb ok evs = true.

(** ** The range of the pending diff as the specification words it *)

(** The specification gives the range without a parent branch as the
    word submit followed by two dots. *)
Definition claimed_pending_range (o : Options) : string :=
  if truthy (parent_branch o)
  then ("ancestor:" ++ str_of (parent_branch o) ++ "..")%string
  else "submit..".

(** The pending diff runs the diff subcommand on [claimed_pending_range]. *)
Definition pending_diff_runs_claimed_range : Prop :=
  forall process debug_defined files w,
    let argv := ["bzr"; "dif"; "-q"; "-r"; claimed_pending_range (options w)]
                ++ or_else files [] in
    exists rest,
      trace (snd (diff process debug_defined files w)) =
      trace w ++ [Print argv; Execute argv] ++ rest.

(** ** Concrete runs *)

Module Run.

Definition log_line : string := "123: Jane Doe 2024-01-05 Fixed the thing".

(** A [bzr] that exits with [rc] and prints [out], whatever it is asked. *)
Definition bzr_prints (rc : Z) (out : string)
  : list event -> list string -> Z * string :=
  fun _ _ => (rc, out).

Definition installed : list event -> string -> bool := fun _ _ => true.

Definition same_argv (a b : list string) : bool :=
  if list_eq_dec string_dec a b then true else false.

(** A branch with both a submit branch and a parent location. *)
Definition bzr_both_configured : list event -> list string -> Z * string :=
  fun _ argv =>
    if same_argv argv ["bzr"; "config"; "submit_branch"]
    then (0%Z, ("lp:trunk" ++ newline)%string)
    else if same_argv argv ["bzr"; "config"; "parent_location"]
    then (0%Z, ("lp:parent" ++ newline)%string)
    else (0%Z, EmptyString).

(** A branch with no submit branch and no parent location. *)
Definition bzr_unconfigured : list event -> list string -> Z * string :=
  fun _ argv =>
    match argv with
    | [_; _; name] => (3%Z, (config_missing_message name ++ newline)%string)
    | _ => (0%Z, EmptyString)
    end.

Definition no_options : Options :=
  mkOptions None None false false None None.

Definition guess_options : Options :=
  mkOptions None None true true None None.

Definition start (o : Options) : World := mkWorld o [].

Definition not_installed : list event -> string -> bool := fun _ _ => false.

(** A base class whose scan finds no server. *)
Definition base_scan_nothing : option RepositoryInfo -> M (option string) :=
  fun _ => ret None.

End Run.

(** ** Facts about the string operations *)

Module PyStrFacts.
Import PyStr.

Lemma append_nil_r (s : string) : (s ++ "")%string = s.
Proof. induction s as [|c s IH]; simpl; [reflexivity | now rewrite IH]. Qed.

Lemma append_assoc (a b c : string) :
  ((a ++ b) ++ c)%string = (a ++ (b ++ c))%string.
Proof. induction a as [|x a IH]; simpl; [reflexivity | now rewrite IH]. Qed.

Lemma prefix_iff (sub s : string) :
  String.prefix sub s = true <-> exists post, s = (sub ++ post)%string.
Proof.
  revert s; induction sub as [|a sub IH]; intros s.
  - destruct s; simpl; split; eauto.
  - destruct s as [|b s]; simpl.
    + split; [discriminate | intros [post H]; discriminate].
    + destruct (ascii_dec a b) as [->|Hab].
      * rewrite IH. split; intros [post H]; exists post.
        -- now rewrite H.
        -- now inversion H.
      * split; [discriminate | intros [post H]; congruence].
Qed.

Lemma contains_iff (sub s : string) :
  contains sub s = true <-> occurs_in sub s.
Proof.
  unfold occurs_in. induction s as [|c s IH].
  - cbn [contains]. rewrite orb_false_r, prefix_iff. split.
    + intros [post H]. exists EmptyString, post. exact H.
    + intros [pre [post H]]. destruct pre; simpl in H.
      * now exists post.
      * discriminate.
  - cbn [contains]. rewrite orb_true_iff, prefix_iff, IH. split.
    + intros [[post H] | [pre [post H]]].
      * exists EmptyString, post. exact H.
      * exists (String c pre), post. simpl. now rewrite H.
    + intros [pre [post H]]. destruct pre as [|x pre]; simpl in H.
      * left. now exists post.
      * right. inversion H. now exists pre, post.
Qed.

Lemma contains_false_iff (sub s : string) :
  contains sub s = false <-> ~ occurs_in sub s.
Proof.
  rewrite <- contains_iff. destruct (contains sub s); split;
    congruence.
Qed.

(** [rstrip] cuts a run of whitespace off the end ... *)
Lemma rstrip_all_space (s : string) :
  all_space s = true -> rstrip s = EmptyString.
Proof.
  destruct s as [|c s]; simpl; [reflexivity|].
  intros H. now rewrite H.
Qed.

Lemma rstrip_split (s : string) :
  exists ws, all_space ws = true /\ s = (rstrip s ++ ws)%string.
Proof.
  induction s as [|c s [ws [Hws Hs]]].
  - exists EmptyString. split; reflexivity.
  - simpl. destruct (is_space c && all_space s) eqn:E.
    + exists (String c s). split; [exact E | reflexivity].
    + exists ws. split; [exact Hws|]. simpl. now rewrite <- Hs.
Qed.

(** ... and what it returns does not end in whitespace. *)
Lemma all_space_app (a b : string) :
  all_space (a ++ b) = all_space a && all_space b.
Proof.
  induction a as [|c a IH]; simpl; [reflexivity|].
  now rewrite IH, andb_assoc.
Qed.

Lemma rstrip_empty (s : string) :
  rstrip s = EmptyString -> all_space s = true.
Proof.
  destruct s as [|c s]; simpl; [reflexivity|].
  destruct (is_space c && all_space s); [reflexivity | discriminate].
Qed.

Lemma rstrip_no_trailing_space (s body : string) (c : ascii) :
  rstrip s = (body ++ String c "")%string -> is_space c = false.
Proof.
  revert body; induction s as [|x s IH]; intros body; simpl.
  - destruct body; discriminate.
  - destruct (is_space x && all_space s) eqn:E.
    + destruct body; discriminate.
    + destruct body as [|y body]; simpl; intros H; inversion H; subst.
      * destruct (is_space c) eqn:Hc; [|reflexivity].
        rewrite (rstrip_empty s) in E by assumption. discriminate.
      * eapply IH; eassumption.
Qed.

Lemma rstrip_stripped_of (s : string) : stripped_of s (rstrip s).
Proof.
  split; [apply rstrip_split | apply rstrip_no_trailing_space].
Qed.

Lemma rstrip_app_space (v ws : string) :
  all_space ws = true ->
  (forall body c, v = (body ++ String c "")%string -> is_space c = false) ->
  rstrip (v ++ ws) = v.
Proof.
  intros Hws. induction v as [|x v IH]; intros Hend; simpl.
  - now apply rstrip_all_space.
  - rewrite all_space_app, Hws, andb_true_r.
    destruct (is_space x && all_space v) eqn:E.
    + exfalso. apply andb_true_iff in E as [Hx Hv].
      assert (Hlast : exists body c, String x v = (body ++ String c "")%string
                                     /\ is_space c = true).
      { clear IH Hend. revert x Hx Hv. induction v as [|y v IHv]; intros x Hx Hv.
        - exists EmptyString, x. split; [reflexivity | exact Hx].
        - simpl in Hv. apply andb_true_iff in Hv as [Hy Hv].
          destruct (IHv y Hy Hv) as [body [c [Hb Hc]]].
          exists (String x body), c. split; [simpl; now rewrite Hb | exact Hc]. }
      destruct Hlast as [body [c [Hb Hc]]].
      rewrite (Hend body c Hb) in Hc. discriminate.
    + f_equal. apply IH. intros body c Hb.
      apply (Hend (String x body) c). simpl. now rewrite Hb.
Qed.

Lemma stripped_of_unique (s v : string) :
  stripped_of s v -> v = rstrip s.
Proof.
  intros [[ws [Hws Hs]] Hend]. subst s. symmetry.
  now apply rstrip_app_space.
Qed.

(** A string without the separator splits into itself alone. *)
Lemma split_from_no_sep (sep : string) (s cur : string) :
  contains sep s = false ->
  split_from sep 0 cur s = [(cur ++ s)%string].
Proof.
  revert cur; induction s as [|c s IH]; intros cur H.
  - simpl. now rewrite append_nil_r.
  - cbn [contains] in H. apply orb_false_iff in H as [Hp Hc].
    cbn [split_from]. rewrite Hp, (IH _ Hc), append_assoc. reflexivity.
Qed.

Lemma split_no_sep (sep s : string) :
  contains sep s = false -> split sep s = [s].
Proof. intros H. unfold split. now rewrite split_from_no_sep. Qed.

Lemma slice_from_app (pre post : string) :
  slice_from (String.length pre) (pre ++ post) = post.
Proof. induction pre as [|c pre IH]; simpl; [now destruct post | exact IH]. Qed.

(** Splitting at the first separator: what stands before the first two
    dots is the first piece, and the rest is split on. *)
Lemma split_from_first_dots (a b cur : string) :
  contains ".." (a ++ ".") = false ->
  split_from ".." 0 cur (a ++ ".." ++ b) =
    (cur ++ a)%string :: split_from ".." 0 EmptyString b.
Proof.
  revert cur; induction a as [|c a IH]; intros cur H.
  - change (("" ++ ".." ++ b)%string) with (String "." (String "." b)).
    cbn [split_from].
    assert (Hp : String.prefix ".." (String "." (String "." b)) = true)
      by (apply prefix_iff; now exists b).
    rewrite Hp. cbn [String.length Nat.sub split_from].
    now rewrite append_nil_r.
  - change ((String c a ++ ".")%string) with (String c (a ++ ".")) in H.
    cbn [contains] in H. apply orb_false_iff in H as [Hp Hc].
    change ((String c a ++ ".." ++ b)%string) with (String c (a ++ ".." ++ b)).
    cbn [split_from].
    assert (Hp' : String.prefix ".." (String c (a ++ ".." ++ b)) = false).
    { destruct (String.prefix ".." (String c (a ++ ".." ++ b))) eqn:E;
        [|reflexivity].
      apply prefix_iff in E as [r Hr]. simpl in Hr. inversion Hr; subst c.
      assert (Hq : String.prefix ".." (String "." (a ++ ".")) = true).
      { apply prefix_iff. destruct a as [|x a]; simpl in H1 |- *.
        - now exists EmptyString.
        - inversion H1; subst x. now exists (a ++ ".")%string. }
      congruence. }
    rewrite Hp', (IH _ Hc), append_assoc. reflexivity.
Qed.

Lemma split_first_dots (a b : string) :
  contains ".." (a ++ ".") = false ->
  split ".." (a ++ ".." ++ b) = a :: split ".." b.
Proof. intros H. unfold split. now rewrite split_from_first_dots. Qed.

Lemma split_from_nonempty (sep : string) (skip : nat) (cur s : string) :
  split_from sep skip cur s <> [].
Proof.
  revert skip cur; induction s as [|c s IH]; intros skip cur; cbn [split_from].
  - discriminate.
  - destruct skip; [|apply IH].
    destruct (String.prefix sep (String c s)); [discriminate | apply IH].
Qed.

Lemma split_head (sep s : string) :
  split sep s = hd EmptyString (split sep s) :: tl (split sep s).
Proof.
  unfold split. pose proof (split_from_nonempty sep 0 EmptyString s) as H.
  now destruct (split_from sep 0 EmptyString s).
Qed.

End PyStrFacts.

(** ** Facts about the search *)

Module ReFacts.
Import Re PyStrFacts.

Lemma fullmatch_length (pat : list atom) (d : string) :
  fullmatch pat d = true -> String.length d = List.length pat.
Proof.
  revert d; induction pat as [|a pat IH]; intros [|c d]; simpl;
    try discriminate; [reflexivity|].
  intros H. apply andb_true_iff in H as [_ H]. now rewrite (IH d H).
Qed.

Lemma match_here_iff (pat : list atom) (s : string) :
  match_here pat s = true <->
  exists d post, s = (d ++ post)%string /\ fullmatch pat d = true.
Proof.
  revert s; induction pat as [|a pat IH]; intros s.
  - simpl. split; [|reflexivity].
    intros _. exists EmptyString, s. split; reflexivity.
  - destruct s as [|c s]; simpl.
    + split; [discriminate|].
      intros [d [post [H1 H2]]]. destruct d; simpl in *; discriminate.
    + rewrite andb_true_iff, IH. split.
      * intros [Hc [d [post [H1 H2]]]]. exists (String c d), post.
        simpl. rewrite Hc, H2, H1. split; reflexivity.
      * intros [d [post [H1 H2]]]. destruct d as [|x d]; [discriminate|].
        simpl in H1, H2. inversion H1; subst.
        apply andb_true_iff in H2 as [Hx Hd].
        split; [exact Hx | now exists d, post].
Qed.

Lemma search_from_none (pat : list atom) (pos : nat) (s : string) :
  search_from pat pos s = None <->
  forall pre rest, s = (pre ++ rest)%string -> match_here pat rest = false.
Proof.
  revert pos; induction s as [|c s IH]; intros pos; cbn [search_from].
  - destruct (match_here pat "") eqn:E; split; try discriminate.
    + intros H. rewrite (H EmptyString EmptyString eq_refl) in E.
      discriminate.
    + intros _ pre rest H. destruct pre; simpl in H; [now subst|discriminate].
    + reflexivity.
  - destruct (match_here pat (String c s)) eqn:E.
    + split; [discriminate|].
      intros H. rewrite (H EmptyString _ eq_refl) in E. discriminate.
    + rewrite IH. split.
      * intros H pre rest Hs. destruct pre as [|x pre]; simpl in Hs.
        -- now subst.
        -- inversion Hs; subst. now apply (H pre rest).
      * intros H pre rest Hs. apply (H (String c pre) rest).
        simpl. now rewrite Hs.
Qed.

Lemma search_none_iff (pat : list atom) (s : string) :
  search pat s = None <-> ~ matched_in pat s.
Proof.
  unfold search, matched_in. rewrite search_from_none. split.
  - intros H [pre [d [post [Hs Hd]]]].
    specialize (H pre (d ++ post)%string Hs).
    assert (Hm : match_here pat (d ++ post) = true)
      by (apply match_here_iff; now exists d, post).
    congruence.
  - intros H pre rest Hs. destruct (match_here pat rest) eqn:E; [|reflexivity].
    exfalso. apply H. apply match_here_iff in E as [d [post [Hr Hd]]].
    exists pre, d, post. split; [now rewrite Hs, Hr | exact Hd].
Qed.

Lemma search_from_first (pat : list atom) (pos : nat)
    (s pre d post : string) :
  first_match pat s pre d post ->
  search_from pat pos s =
    Some (pos + String.length pre,
          pos + String.length pre + List.length pat).
Proof.
  revert pos s; induction pre as [|c pre IH]; intros pos s (Hs & Hd & Hmin).
  - simpl in Hs. subst s.
    assert (Hm : match_here pat (d ++ post) = true)
      by (apply match_here_iff; now exists d, post).
    destruct d; destruct post; cbn [search_from append] in *;
      rewrite Hm; simpl; now rewrite Nat.add_0_r.
  - simpl in Hs. subst s. cbn [search_from append].
    destruct (match_here pat (String c (pre ++ d ++ post))) eqn:E.
    + apply match_here_iff in E as [d' [post' [Hr Hd']]].
      specialize (Hmin EmptyString d' post' Hr Hd'). simpl in Hmin. lia.
    + rewrite (IH (S pos) (pre ++ d ++ post)%string).
      * simpl. f_equal. f_equal; lia.
      * split; [reflexivity|]. split; [exact Hd|].
        intros pre' d' post' Hs' Hd'.
        specialize (Hmin (String c pre') d' post').
        simpl in Hmin. rewrite Hs' in Hmin.
        specialize (Hmin eq_refl Hd'). lia.
Qed.

Lemma search_first (pat : list atom) (s pre d post : string) :
  first_match pat s pre d post ->
  search pat s = Some (String.length pre, String.length pre + String.length d).
Proof.
  intros H. unfold search. rewrite (search_from_first pat 0 s pre d post H).
  destruct H as (_ & Hd & _). now rewrite (fullmatch_length pat d Hd).
Qed.

(** Stripping trailing whitespace does not create a match. *)
Lemma matched_in_rstrip (pat : list atom) (s : string) :
  matched_in pat (PyStr.rstrip s) -> matched_in pat s.
Proof.
  intros [pre [d [post [Hs Hd]]]].
  destruct (rstrip_split s) as [ws [_ Hws]].
  exists pre, d, (post ++ ws)%string. split; [|exact Hd].
  now rewrite Hws, Hs, !append_assoc.
Qed.

(** A search that succeeds has found the first match. *)
Lemma search_from_some (pat : list atom) (pos : nat) (s : string)
    (i j : nat) :
  search_from pat pos s = Some (i, j) ->
  exists pre d post,
    first_match pat s pre d post /\
    i = pos + String.length pre /\ j = i + List.length pat.
Proof.
  revert pos; induction s as [|c s IH]; intros pos; cbn [search_from];
    destruct (match_here pat _) eqn:E; try discriminate.
  - intros H. inversion H; subst.
    apply match_here_iff in E as [d [post [Hs Hd]]].
    exists EmptyString, d, post. repeat split; simpl; auto with arith.
  - intros H. inversion H; subst.
    apply match_here_iff in E as [d [post [Hs Hd]]].
    exists EmptyString, d, post. repeat split; simpl; auto with arith.
  - intros H. destruct (IH _ H) as (pre & d & post & (Hs & Hd & Hmin) & Hi & Hj).
    exists (String c pre), d, post. repeat split.
    + simpl. now rewrite Hs.
    + exact Hd.
    + intros pre' d' post' Hs' Hd'. destruct pre' as [|x pre'].
      * assert (Hm : match_here pat (String c s) = true)
          by (apply match_here_iff; now exists d', post').
        congruence.
      * simpl in Hs'. inversion Hs'; subst x.
        specialize (Hmin pre' d' post' H2 Hd'). simpl. lia.
    + simpl. lia.
    + exact Hj.
Qed.

Lemma first_match_of_search (pat : list atom) (s pre d post : string)
    (i j : nat) :
  search pat s = Some (i, j) ->
  s = (pre ++ d ++ post)%string ->
  String.length pre = i ->
  fullmatch pat d = true ->
  first_match pat s pre d post.
Proof.
  intros Hs Heq Hlen Hd.
  destruct (search_from_some pat 0 s i j Hs)
    as (pre0 & d0 & post0 & (_ & _ & Hmin) & Hi & _).
  split; [exact Heq|]. split; [exact Hd|].
  intros pre' d' post' Hs' Hd'. specialize (Hmin pre' d' post' Hs' Hd').
  simpl in Hi. lia.
Qed.

Lemma matched_in_first (pat : list atom) (s : string) :
  matched_in pat s -> exists pre d post, first_match pat s pre d post.
Proof.
  intros Hm. destruct (search pat s) as [[i j]|] eqn:E.
  - destruct (search_from_some pat 0 s i j E) as (pre & d & post & H & _).
    now exists pre, d, post.
  - apply search_none_iff in E. contradiction.
Qed.

(** A date ends in a digit, which is not whitespace, so stripping the
    end of the log line cannot remove a date either. *)
Lemma digit_not_space (c : ascii) :
  is_digit c = true -> PyStr.is_space c = false.
Proof.
  unfold is_digit, PyStr.is_space. intros H.
  apply andb_true_iff in H as [H1 H2].
  apply Nat.leb_le in H1, H2.
  apply orb_false_iff. split.
  - apply Nat.eqb_neq. lia.
  - apply andb_false_iff. right. apply Nat.leb_gt. lia.
Qed.

Lemma iso_date_ends_in_digit (d : string) :
  fullmatch iso_date d = true ->
  exists body c, d = (body ++ String c "")%string /\ is_digit c = true.
Proof.
  unfold iso_date. simpl.
  destruct d as [|c1 [|c2 [|c3 [|c4 [|c5 [|c6 [|c7 [|c8 [|c9 [|c10 [|c11 d]]]]]]]]]]];
    simpl; try discriminate;
    try (intros H; repeat (apply andb_true_iff in H as [_ H]); discriminate).
  intros H. repeat (apply andb_true_iff in H as [? H]).
  exists (String c1 (String c2 (String c3 (String c4 (String c5
            (String c6 (String c7 (String c8 (String c9 "")))))))))%string, c10.
  split; [reflexivity | assumption].
Qed.

Lemma rstrip_keeps_nonspace (a b : string) (c : ascii) :
  PyStr.is_space c = false ->
  PyStr.rstrip (a ++ String c b) = (a ++ String c (PyStr.rstrip b))%string.
Proof.
  intros Hc. induction a as [|x a IH]; simpl.
  - now rewrite Hc.
  - rewrite all_space_app. simpl. rewrite Hc.
    simpl. rewrite andb_false_r, andb_false_r. now rewrite IH.
Qed.

Lemma iso_date_survives_rstrip (s : string) :
  matched_in iso_date s <-> matched_in iso_date (PyStr.rstrip s).
Proof.
  split; [|apply matched_in_rstrip].
  intros (pre & d & post & Hs & Hd).
  destruct (iso_date_ends_in_digit d Hd) as (body & c & Hb & Hc).
  exists pre, d, (PyStr.rstrip post). split; [|exact Hd].
  rewrite Hs, Hb, !append_assoc. simpl.
  rewrite <- (append_assoc pre body).
  rewrite rstrip_keeps_nonspace by now apply digit_not_space.
  now rewrite append_assoc.
Qed.

End ReFacts.

(** ** Facts about the client *)

Section ClientFacts.

Import PyStr PyStrFacts.

Variable check_install_result : list event -> string -> bool.
Variable process : list event -> list string -> Z * string.
Variable debug_defined : bool.

Lemma after_nil (w : World) : after w [] = w.
Proof. destruct w as [o t]. unfold after. simpl. now rewrite app_nil_r. Qed.

Lemma after_after (w : World) (a b : list event) :
  after (after w a) b = after w (a ++ b).
Proof. unfold after. simpl. now rewrite app_assoc. Qed.

Lemma execute_ok (command : list string) (ignore_errors : bool)
    (extra : list Z) (w : World) (rc : Z) (out : string) :
  process (trace w) command = (rc, out) ->
  ((rc =? 0)%Z || ignore_errors || existsb (Z.eqb rc) extra) = true ->
  execute process command ignore_errors extra w =
    (Ok out, after w [Execute command]).
Proof. intros Hp Hrc. unfold execute. now rewrite Hp, Hrc. Qed.

Lemma execute_dies (command : list string) (ignore_errors : bool)
    (extra : list Z) (w : World) (rc : Z) (out : string) :
  process (trace w) command = (rc, out) ->
  ((rc =? 0)%Z || ignore_errors || existsb (Z.eqb rc) extra) = false ->
  execute process command ignore_errors extra w =
    (Raise SystemExit, after w [Execute command]).
Proof. intros Hp Hrc. unfold execute. now rewrite Hp, Hrc. Qed.

Lemma execute_world (command : list string) (ignore_errors : bool)
    (extra : list Z) (w : World) :
  snd (execute process command ignore_errors extra w) =
    after w [Execute command].
Proof.
  unfold execute. destruct (process (trace w) command) as [rc out].
  now destruct ((rc =? 0)%Z || ignore_errors || existsb (Z.eqb rc) extra).
Qed.

Lemma debug_world (msg : string) (w : World) :
  snd (debug debug_defined msg w) =
    after w (if debug_defined then [Debug msg] else []).
Proof.
  unfold debug. destruct debug_defined; simpl; [reflexivity|].
  now rewrite after_nil.
Qed.

(** C3: when the config query is not fatal (exit status 0, or 3 which
    [_get_config] ignores) and its output contains the message that the
    option does not exist, [_get_config] returns [None]; when the output
    does not contain it, [_get_config] returns the output without its
    trailing whitespace. *)
Theorem get_config_absent_or_stripped (name : string) (w : World)
    (rc : Z) (out : string) :
  process (trace w) ["bzr"; "config"; name] = (rc, out) ->
  rc = 0%Z \/ rc = 3%Z ->
  (occurs_in (config_missing_message name) out ->
   _get_config process name w =
     (Ok None, after w [Execute ["bzr"; "config"; name]])) /\
  (~ occurs_in (config_missing_message name) out ->
   exists v,
     _get_config process name w =
       (Ok (Some v), after w [Execute ["bzr"; "config"; name]]) /\
     stripped_of out v).
Proof.
  intros Hp Hrc.
  assert (He : execute process ["bzr"; "config"; name] false [3%Z] w =
               (Ok out, after w [Execute ["bzr"; "config"; name]])).
  { apply (execute_ok _ _ _ _ rc); [exact Hp|].
    destruct Hrc as [-> | ->]; reflexivity. }
  unfold _get_config, bind. rewrite He. split.
  - intros Hin. apply contains_iff in Hin. now rewrite Hin.
  - intros Hout. apply contains_false_iff in Hout. rewrite Hout.
    exists (rstrip out). split; [reflexivity | apply rstrip_stripped_of].
Qed.

(** A config query that exits with any other non-zero status ends the
    run. *)
Lemma get_config_dies (name : string) (w : World) (rc : Z) (out : string) :
  process (trace w) ["bzr"; "config"; name] = (rc, out) ->
  rc <> 0%Z -> rc <> 3%Z ->
  _get_config process name w =
    (Raise SystemExit, after w [Execute ["bzr"; "config"; name]]).
Proof.
  intros Hp H0 H3. unfold _get_config, bind.
  rewrite (execute_dies _ _ _ _ rc out Hp); [reflexivity|].
  simpl. apply Z.eqb_neq in H0, H3. now rewrite H0, H3.
Qed.

(** [_get_range_diff] always returns: the exit status of the diff is
    ignored. *)
Lemma range_diff_returns (revision_range : string) (files : list string)
    (w : World) :
  let argv := ["bzr"; "dif"; "-q"; "-r"; revision_range] ++ files in
  let out := snd (process (trace w ++ [Print argv]) argv) in
  _get_range_diff process revision_range files w =
    (Ok (if is_empty out then None else Some out),
     after w [Print argv; Execute argv]).
Proof.
  intros argv out. unfold _get_range_diff, bind, emit. fold argv.
  unfold execute. cbn [trace options]. subst out.
  destruct (process (trace w ++ [Print argv]) argv) as [rc o].
  rewrite orb_true_r. cbn [orb snd]. unfold after.
  now rewrite <- app_assoc.
Qed.

(** C8: [_get_range_diff] runs exactly one command, and its argument
    vector is [bzr], the diff subcommand (spelled [dif], which [bzr]
    accepts for [diff]), [-q], [-r], the range, then the files. *)
Theorem range_diff_argv (revision_range : string) (files : list string)
    (w : World) :
  snd (_get_range_diff process revision_range files w) =
    after w [Print (["bzr"; "dif"; "-q"; "-r"; revision_range] ++ files);
             Execute (["bzr"; "dif"; "-q"; "-r"; revision_range] ++ files)].
Proof. now rewrite range_diff_returns. Qed.

(** C4: whatever the diff subprocess exits with, [_get_range_diff]
    returns [None] when it printed nothing and the output itself when it
    printed something; it never returns the empty string. *)
Theorem range_diff_empty_is_none (revision_range : string)
    (files : list string) (w : World) (rc : Z) (out : string) :
  process (trace w ++
             [Print (["bzr"; "dif"; "-q"; "-r"; revision_range] ++ files)])
          (["bzr"; "dif"; "-q"; "-r"; revision_range] ++ files) = (rc, out) ->
  (out = EmptyString ->
   fst (_get_range_diff process revision_range files w) = Ok None) /\
  (out <> EmptyString ->
   fst (_get_range_diff process revision_range files w) = Ok (Some out)) /\
  fst (_get_range_diff process revision_range files w) <> Ok (Some EmptyString).
Proof.
  intros Hp. unfold _get_range_diff, bind, emit.
  set (argv := ["bzr"; "dif"; "-q"; "-r"; revision_range] ++ files) in *.
  rewrite (execute_ok argv true [] _ rc out); [|exact Hp|].
  - simpl. destruct out as [|c out]; simpl; repeat split;
      try congruence; try discriminate.
  - now rewrite orb_true_r.
Qed.

(** C6: with [bzr] installed and a repository URL given in the options,
    [get_repository_info] returns that URL as the path, [/] as the base
    path and parent diffs supported, and does nothing but the
    installation check: no command is executed. *)
Theorem explicit_url_short_circuits (w : World) (url : string) :
  check_install_result (trace w) "bzr help" = true ->
  repository_url (options w) = Some url ->
  url <> EmptyString ->
  get_repository_info check_install_result process w =
    (Ok (Some (mkRepositoryInfo url "/" true)),
     after w [CheckInstall "bzr help"]).
Proof.
  intros Hinst Hurl Hne.
  unfold get_repository_info, bind, check_install, get_options.
  rewrite Hinst. simpl. rewrite Hurl.
  destruct url as [|c url]; [contradiction|]. reflexivity.
Qed.

Lemma not_installed_no_repository_world (w : World) :
  check_install_result (trace w) "bzr help" = false ->
  get_repository_info check_install_result process w =
    (Ok None, after w [CheckInstall "bzr help"]).
Proof.
  intros Hinst. unfold get_repository_info, bind, check_install.
  now rewrite Hinst.
Qed.

(** X1: without [bzr] there is no repository and nothing is looked up,
    whatever the options hold, a repository URL included: the
    installation check comes before everything else. *)
Lemma not_installed_no_repository (w : World) :
  check_install_result (trace w) "bzr help" = false ->
  get_repository_info check_install_result process w =
    (Ok None, after w [CheckInstall "bzr help"]).
Proof.
  intros Hinst. unfold get_repository_info, bind, check_install.
  now rewrite Hinst.
Qed.

(** Once [bzr] is found and no URL is given, the answer is read off the
    loop over the two configuration keys. *)
Lemma repository_info_lookup (w : World) :
  check_install_result (trace w) "bzr help" = true ->
  truthy (repository_url (options w)) = false ->
  get_repository_info check_install_result process w =
    bind (first_branch process ["submit_branch"; "parent_location"] None)
         (fun branch =>
            match branch with
            | None => ret None
            | Some b => ret (Some (mkRepositoryInfo b "/" true))
            end)
         (after w [CheckInstall "bzr help"]).
Proof.
  intros Hinst Hurl.
  unfold get_repository_info, check_install, get_options.
  unfold bind at 1. rewrite Hinst. cbn [negb]. unfold bind at 1.
  cbn [options]. now rewrite Hurl.
Qed.

(** C5: with [bzr] installed and no repository URL in the options,
    [get_repository_info] asks for [submit_branch] first.  If that has a
    value, the value is the path and [parent_location] is not asked for;
    if it has none, [parent_location] is asked for and its value, if
    any, is the path; if neither has a value there is no repository. *)
Theorem repository_from_first_configured_branch (w : World) :
  check_install_result (trace w) "bzr help" = true ->
  truthy (repository_url (options w)) = false ->
  let w1 := after w [CheckInstall "bzr help"] in
  (forall b w2,
     _get_config process "submit_branch" w1 = (Ok (Some b), w2) ->
     get_repository_info check_install_result process w =
       (Ok (Some (mkRepositoryInfo b "/" true)), w2) /\
     w2 = after w1 [Execute ["bzr"; "config"; "submit_branch"]]) /\
  (forall b w2 w3,
     _get_config process "submit_branch" w1 = (Ok None, w2) ->
     _get_config process "parent_location" w2 = (Ok (Some b), w3) ->
     get_repository_info check_install_result process w =
       (Ok (Some (mkRepositoryInfo b "/" true)), w3)) /\
  (forall w2 w3,
     _get_config process "submit_branch" w1 = (Ok None, w2) ->
     _get_config process "parent_location" w2 = (Ok None, w3) ->
     get_repository_info check_install_result process w = (Ok None, w3)).
Proof.
  intros Hinst Hurl w1. subst w1. repeat split.
  - rewrite (repository_info_lookup w Hinst Hurl). cbn [first_branch].
    unfold bind. now rewrite H.
  - pose proof (f_equal snd H) as Hw. simpl in Hw. rewrite <- Hw.
    unfold _get_config, bind.
    rewrite (surjective_pairing (execute process _ false [3%Z] _)).
    rewrite execute_world.
    destruct (fst (execute process _ false [3%Z] _)) as [out|e];
      [destruct (contains _ out)|]; reflexivity.
  - intros b w2 w3 H1 H2. rewrite (repository_info_lookup w Hinst Hurl).
    cbn [first_branch]. unfold bind. now rewrite H1, H2.
  - intros w2 w3 H1 H2. rewrite (repository_info_lookup w Hinst Hurl).
    cbn [first_branch]. unfold bind. now rewrite H1, H2.
Qed.

(** C9: for a range without two dots in a row, [diff_between_revisions]
    runs the diff and then raises IndexError: the split on the two dots
    has a single piece and the second one is asked for. *)
Theorem explicit_range_needs_two_dots (revision_range : string)
    (files : list string) (repository_info : option RepositoryInfo)
    (w : World) :
  ~ occurs_in ".." revision_range ->
  diff_between_revisions process debug_defined revision_range files
    repository_info w =
    (Raise IndexError,
     after w [Print (["bzr"; "dif"; "-q"; "-r"; revision_range] ++ files);
              Execute (["bzr"; "dif"; "-q"; "-r"; revision_range] ++ files)]).
Proof.
  intros Hno. apply contains_false_iff in Hno.
  unfold diff_between_revisions. unfold bind at 1.
  rewrite range_diff_returns. now rewrite (split_no_sep _ _ Hno).
Qed.

(** With two dots in the range the split has a second piece, so this
    failure is confined to ranges without them. *)
Lemma split_with_sep_has_second (sep s : string) :
  sep <> EmptyString ->
  contains sep s = true -> exists a b l, split sep s = a :: b :: l.
Proof.
  intros Hsep. unfold split. generalize EmptyString as cur.
  induction s as [|c s IH]; intros cur H.
  - cbn [contains] in H. rewrite orb_false_r in H.
    destruct sep; [contradiction | discriminate].
  - cbn [contains] in H. cbn [split_from].
    destruct (String.prefix sep (String c s)) eqn:Hp.
    + destruct (split_from sep (String.length sep - 1) "" s) as [|b l] eqn:E.
      * exfalso. revert E. generalize (String.length sep - 1) as k.
        generalize EmptyString as cur'. clear.
        induction s as [|x s IHs]; intros cur' k; [discriminate|].
        cbn [split_from]. destruct k; [|apply IHs].
        destruct (String.prefix sep (String x s)); [discriminate | apply IHs].
      * now exists cur, b, l.
    + simpl in H. now apply IH.
Qed.

Lemma search_stripped_none (out : string) :
  ~ Re.matched_in Re.iso_date out ->
  Re.search Re.iso_date (rstrip out) = None.
Proof.
  intros Hno. apply ReFacts.search_none_iff. intros Hm. apply Hno.
  now apply ReFacts.matched_in_rstrip.
Qed.

(** C10: when the log subprocess succeeds and no part of its output
    matches the date pattern, [_extract_summary] raises AttributeError
    (the search result is [None] and its [end] is asked for) and returns
    no summary. *)
Theorem extract_summary_needs_date (revision : string) (w : World)
    (out : string) :
  process (trace w) ["bzr"; "log"; "-r"; revision; "--line"] = (0%Z, out) ->
  ~ Re.matched_in Re.iso_date out ->
  _extract_summary process debug_defined revision w =
    (Raise AttributeError,
     after w [Execute ["bzr"; "log"; "-r"; revision; "--line"]]).
Proof.
  intros Hp Hno. unfold _extract_summary. unfold bind at 1.
  rewrite (execute_ok _ false [] w 0%Z out Hp eq_refl).
  now rewrite (search_stripped_none out Hno).
Qed.

Lemma slice_from_add (a b : nat) (s : string) :
  slice_from (a + b) s = slice_from b (slice_from a s).
Proof.
  revert s; induction a as [|a IH]; intros s; simpl; [reflexivity|].
  destruct s as [|c s]; [now destruct b | apply IH].
Qed.

(** What [_extract_summary] computes when the log has a date: the text
    after the first match of the pattern, less one character.  It is
    returned if [debug] is bound; as the module stands the call of
    [debug] raises NameError instead. *)
Lemma extract_summary_after_first_date (revision : string) (w : World)
    (out pre d post : string) :
  process (trace w) ["bzr"; "log"; "-r"; revision; "--line"] = (0%Z, out) ->
  Re.first_match Re.iso_date (rstrip out) pre d post ->
  _extract_summary process debug_defined revision w =
    if debug_defined
    then (Ok (slice_from 1 post),
          after w [Execute ["bzr"; "log"; "-r"; revision; "--line"];
                   Debug ("Summary: " ++ slice_from 1 post)%string])
    else (Raise NameError,
          after w [Execute ["bzr"; "log"; "-r"; revision; "--line"]]).
Proof.
  intros Hp Hm. unfold _extract_summary. unfold bind at 1.
  rewrite (execute_ok _ false [] w 0%Z out Hp eq_refl).
  rewrite (ReFacts.search_first _ _ _ _ _ Hm). cbn [Re.match_end snd].
  destruct Hm as (Hs & _ & _). rewrite Hs.
  rewrite !slice_from_add, slice_from_app, slice_from_app.
  unfold bind, debug. destruct debug_defined; [|reflexivity].
  unfold emit, ret, after. cbn [options trace]. now rewrite <- app_assoc.
Qed.

(** The date in the log is exactly what [_extract_summary] needs: with
    a successful log command, AttributeError is raised if and only if
    the output has no date. *)
Lemma extract_summary_attribute_error_iff (revision : string) (w : World)
    (out : string) :
  process (trace w) ["bzr"; "log"; "-r"; revision; "--line"] = (0%Z, out) ->
  fst (_extract_summary process debug_defined revision w)
    = Raise AttributeError <->
  ~ Re.matched_in Re.iso_date out.
Proof.
  intros Hp. split.
  - intros Hr Hm. apply ReFacts.iso_date_survives_rstrip in Hm.
    destruct (ReFacts.matched_in_first _ _ Hm) as (pre & d & post & Hf).
    rewrite (extract_summary_after_first_date revision w out pre d post Hp Hf)
      in Hr.
    destruct debug_defined; discriminate Hr.
  - intros Hno. unfold _extract_summary. unfold bind at 1.
    rewrite (execute_ok _ false [] w 0%Z out Hp eq_refl).
    now rewrite (search_stripped_none out Hno).
Qed.

(** *** What the methods leave alone *)

Lemma only_fills_refl (o : Options) : only_fills o o.
Proof. unfold only_fills. intuition. Qed.

Lemma only_fills_trans (a b c : Options) :
  only_fills a b -> only_fills b c -> only_fills a c.
Proof.
  unfold only_fills.
  intros (U1 & P1 & G1 & D1 & S1 & T1) (U2 & P2 & G2 & D2 & S2 & T2).
  rewrite G1 in S2. rewrite D1 in T2.
  repeat split; try congruence.
  - destruct S1 as [S1|S1]; [|now right].
    destruct S2 as [S2|S2]; [left; congruence | right; now rewrite <- S1].
  - destruct T1 as [T1|T1]; [|now right].
    destruct T2 as [T2|T2]; [left; congruence | right; now rewrite <- T1].
Qed.

Lemma advances_refl (w : World) : advances w w.
Proof.
  split; [apply only_fills_refl | exists []; now rewrite app_nil_r].
Qed.

Lemma advances_trans (a b c : World) :
  advances a b -> advances b c -> advances a c.
Proof.
  intros [F1 [e1 T1]] [F2 [e2 T2]]. split.
  - eapply only_fills_trans; eassumption.
  - exists (e1 ++ e2). now rewrite T2, T1, app_assoc.
Qed.

Lemma advances_after (w : World) (evs : list event) : advances w (after w evs).
Proof. split; [apply only_fills_refl | now exists evs]. Qed.

Lemma bind_advances {A B : Type} (m : M A) (k : A -> M B) (w : World) :
  advances w (snd (m w)) ->
  (forall a w', advances w' (snd (k a w'))) ->
  advances w (snd (bind m k w)).
Proof.
  intros Hm Hk. unfold bind. destruct (m w) as [[a|e] w1]; simpl in *.
  - eapply advances_trans; [exact Hm | apply Hk].
  - exact Hm.
Qed.

Lemma execute_advances (command : list string) (ignore_errors : bool)
    (extra : list Z) (w : World) :
  advances w (snd (execute process command ignore_errors extra w)).
Proof. rewrite execute_world. apply advances_after. Qed.

Lemma debug_advances (msg : string) (w : World) :
  advances w (snd (debug debug_defined msg w)).
Proof. rewrite debug_world. apply advances_after. Qed.

Lemma extract_summary_advances (revision : string) (w : World) :
  advances w (snd (_extract_summary process debug_defined revision w)).
Proof.
  unfold _extract_summary. apply bind_advances; [apply execute_advances|].
  intros out w1. destruct (Re.search Re.iso_date (rstrip out)).
  - apply bind_advances; [apply debug_advances|].
    intros _ w2. apply advances_refl.
  - apply advances_refl.
Qed.

Lemma extract_description_advances (revision_range : option string)
    (w : World) :
  advances w
    (snd (_extract_description process debug_defined revision_range w)).
Proof.
  unfold _extract_description. apply bind_advances; [apply advances_refl|].
  intros o w1. apply bind_advances; [apply execute_advances|].
  intros out w2. apply bind_advances; [apply debug_advances|].
  intros _ w3. apply advances_refl.
Qed.

(** When there is nothing to guess, [_set_summary] and
    [_set_description] do nothing at all. *)
Lemma set_summary_skips (revision : string) (w : World) :
  guess_summary (options w) && negb (truthy (summary (options w))) = false ->
  _set_summary process debug_defined revision w = (Ok tt, w).
Proof. intros H. unfold _set_summary, bind, get_options. now rewrite H. Qed.

Lemma set_description_skips (revision_range : option string) (w : World) :
  guess_description (options w) && negb (truthy (description (options w)))
    = false ->
  _set_description process debug_defined revision_range w = (Ok tt, w).
Proof. intros H. unfold _set_description, bind, get_options. now rewrite H. Qed.

Lemma set_summary_advances (revision : string) (w : World) :
  advances w (snd (_set_summary process debug_defined revision w)).
Proof.
  destruct (guess_summary (options w) && negb (truthy (summary (options w))))
    eqn:G.
  - unfold _set_summary, bind at 1, get_options. rewrite G.
    apply andb_true_iff in G as [G1 G2]. apply negb_true_iff in G2.
    pose proof (extract_summary_advances revision w) as Hadv. unfold bind.
    destruct (_extract_summary process debug_defined revision w)
      as [[v|e] w1]; simpl in *; [|exact Hadv].
    destruct Hadv as [(U & P & Gs & Gd & _ & D) Htr].
    split; [|exact Htr]. unfold only_fills. simpl. auto 10.
  - rewrite (set_summary_skips _ _ G). apply advances_refl.
Qed.

Lemma set_description_advances (revision_range : option string) (w : World) :
  advances w (snd (_set_description process debug_defined revision_range w)).
Proof.
  destruct (guess_description (options w) &&
            negb (truthy (description (options w)))) eqn:G.
  - unfold _set_description, bind at 1, get_options. rewrite G.
    apply andb_true_iff in G as [G1 G2]. apply negb_true_iff in G2.
    pose proof (extract_description_advances revision_range w) as Hadv.
    unfold bind.
    destruct (_extract_description process debug_defined revision_range w)
      as [[v|e] w1]; simpl in *; [|exact Hadv].
    destruct Hadv as [(U & P & Gs & Gd & S & _) Htr].
    split; [|exact Htr]. unfold only_fills. simpl. auto 10.
  - rewrite (set_description_skips _ _ G). apply advances_refl.
Qed.

Lemma range_diff_advances (revision_range : string) (files : list string)
    (w : World) :
  advances w (snd (_get_range_diff process revision_range files w)).
Proof. rewrite range_diff_returns. apply advances_after. Qed.

(** Both public operations only fill the options. *)
Lemma diff_advances (files : option (list string)) (w : World) :
  advances w (snd (diff process debug_defined files w)).
Proof.
  unfold diff. apply bind_advances; [apply advances_refl|].
  intros o w1. apply bind_advances; [apply range_diff_advances|].
  intros d w2. apply bind_advances; [apply set_summary_advances|].
  intros _ w3. apply bind_advances; [apply set_description_advances|].
  intros _ w4. apply advances_refl.
Qed.

Lemma diff_between_revisions_advances (revision_range : string)
    (files : list string) (repository_info : option RepositoryInfo)
    (w : World) :
  advances w
    (snd (diff_between_revisions process debug_defined revision_range files
            repository_info w)).
Proof.
  unfold diff_between_revisions.
  apply bind_advances; [apply range_diff_advances|].
  intros d w1. destruct (nth_error (split ".." revision_range) 1).
  - apply bind_advances; [apply set_summary_advances|].
    intros _ w2. apply bind_advances; [apply set_description_advances|].
    intros _ w3. apply advances_refl.
  - apply advances_refl.
Qed.

(** C1: [_set_summary] changes [options.summary] only if the summary was
    to be guessed and was empty, [_set_description] changes
    [options.description] only if the description was to be guessed and
    was empty, and a summary or description that is not empty is left as
    it is, with nothing run, whatever the guess flag says. *)
Theorem fill_if_absent (revision : string) (revision_range : option string)
    (w : World) :
  (summary (options (snd (_set_summary process debug_defined revision w)))
     <> summary (options w) ->
   guess_summary (options w) = true /\ truthy (summary (options w)) = false) /\
  (description
     (options (snd (_set_description process debug_defined revision_range w)))
     <> description (options w) ->
   guess_description (options w) = true /\
   truthy (description (options w)) = false) /\
  (truthy (summary (options w)) = true ->
   _set_summary process debug_defined revision w = (Ok tt, w)) /\
  (truthy (description (options w)) = true ->
   _set_description process debug_defined revision_range w = (Ok tt, w)).
Proof.
  repeat split.
  - destruct (set_summary_advances revision w)
      as [(_ & _ & _ & _ & [S|[S _]] & _) _]; [contradiction | exact S].
  - destruct (set_summary_advances revision w)
      as [(_ & _ & _ & _ & [S|[_ S]] & _) _]; [contradiction | exact S].
  - destruct (set_description_advances revision_range w)
      as [(_ & _ & _ & _ & _ & [S|[S _]]) _]; [contradiction | exact S].
  - destruct (set_description_advances revision_range w)
      as [(_ & _ & _ & _ & _ & [S|[_ S]]) _]; [contradiction | exact S].
  - intros H. apply set_summary_skips. now rewrite H, andb_false_r.
  - intros H. apply set_description_skips. now rewrite H, andb_false_r.
Qed.

(** C7, as the code has it: [diff] takes the range [ancestor:] followed
    by the parent branch and two dots when [options.parent_branch] is
    set and [submit:..] otherwise, and first runs the diff for that
    range on the files; whenever it returns, it returns that diff paired
    with [None]; and it does return, having done nothing else, when
    neither a summary nor a description has to be guessed. *)
Theorem pending_diff (files : option (list string)) (w : World) :
  let revision_range :=
    if truthy (parent_branch (options w))
    then ("ancestor:" ++ str_of (parent_branch (options w)) ++ "..")%string
    else "submit:.." in
  let argv := ["bzr"; "dif"; "-q"; "-r"; revision_range] ++ or_else files [] in
  let out := snd (process (trace w ++ [Print argv]) argv) in
  let d := if is_empty out then None else Some out in
  (exists rest,
     trace (snd (diff process debug_defined files w)) =
     trace w ++ [Print argv; Execute argv] ++ rest) /\
  (forall v w', diff process debug_defined files w = (Ok v, w') ->
                v = (d, None)) /\
  (guess_summary (options w) && negb (truthy (summary (options w))) = false ->
   guess_description (options w) && negb (truthy (description (options w)))
     = false ->
   diff process debug_defined files w =
     (Ok (d, None), after w [Print argv; Execute argv])).
Proof.
  intros revision_range argv out d.
  assert (Hd : diff process debug_defined files w =
    bind (_set_summary process debug_defined "-1")
      (fun _ => bind (_set_description process debug_defined
                        (Some revision_range))
                     (fun _ => ret (d, None)))
      (after w [Print argv; Execute argv])).
  { unfold diff. unfold bind at 1. unfold get_options at 1.
    unfold bind at 1. cbn [options]. fold revision_range.
    rewrite range_diff_returns. reflexivity. }
  rewrite Hd. split; [|split].
  - assert (Ha : advances (after w [Print argv; Execute argv])
      (snd (bind (_set_summary process debug_defined "-1")
        (fun _ => bind (_set_description process debug_defined
                          (Some revision_range))
                       (fun _ => ret (d, @None string)))
        (after w [Print argv; Execute argv])))).
    { apply bind_advances; [apply set_summary_advances|].
      intros _ w1. apply bind_advances; [apply set_description_advances|].
      intros _ w2. apply advances_refl. }
    destruct Ha as [_ [rest Hr]]. exists rest. rewrite Hr. simpl.
    now rewrite <- app_assoc.
  - intros v w'. unfold bind.
    destruct (_set_summary _ _ _ _) as [[[]|e] w1]; [|discriminate].
    destruct (_set_description _ _ _ _) as [[[]|e] w2]; [|discriminate].
    unfold ret. congruence.
  - intros Gs Gd. unfold bind.
    rewrite (set_summary_skips "-1" (after w [Print argv; Execute argv]) Gs).
    now rewrite (set_description_skips (Some revision_range)
                   (after w [Print argv; Execute argv]) Gd).
Qed.

(** *** More on the repository and the server *)

Lemma get_config_world (name : string) (w : World) :
  snd (_get_config process name w) = after w [Execute ["bzr"; "config"; name]].
Proof.
  unfold _get_config, bind.
  rewrite (surjective_pairing (execute process _ false [3%Z] w)).
  rewrite execute_world.
  destruct (fst (execute process _ false [3%Z] w)) as [out|e];
    [destruct (contains _ out)|]; reflexivity.
Qed.

(** What [_get_config] makes of a query that is not fatal. *)
Lemma get_config_value (name : string) (w : World) (rc : Z) (out : string) :
  process (trace w) ["bzr"; "config"; name] = (rc, out) ->
  rc = 0%Z \/ rc = 3%Z ->
  _get_config process name w =
    (Ok (if contains (config_missing_message name) out
         then None else Some (rstrip out)),
     after w [Execute ["bzr"; "config"; name]]).
Proof.
  intros Hp Hrc. unfold _get_config, bind.
  rewrite (execute_ok _ false [3%Z] w rc out Hp).
  - now destruct (contains _ out).
  - destruct Hrc as [-> | ->]; reflexivity.
Qed.

(** Whitespace alone is not the message of a missing option, and
    nothing is left of it once stripped. *)
Lemma blank_output_is_a_value (name out : string) :
  all_space out = true ->
  contains (config_missing_message name) out = false /\
  rstrip out = EmptyString.
Proof.
  intros Hsp. split; [|now apply rstrip_all_space].
  apply contains_false_iff. intros [pre [post Hs]]. subst out.
  rewrite all_space_app in Hsp. apply andb_true_iff in Hsp as [_ Hsp].
  unfold config_missing_message in Hsp. simpl in Hsp. discriminate.
Qed.

(** X2: a [submit_branch] query that exits with a status other than 0
    and 3 ends the run: [get_repository_info] raises SystemExit and
    [parent_location] is never asked for. *)
Theorem repository_info_dies_with_config (w : World) (rc : Z) (out : string) :
  check_install_result (trace w) "bzr help" = true ->
  truthy (repository_url (options w)) = false ->
  process (trace w ++ [CheckInstall "bzr help"])
          ["bzr"; "config"; "submit_branch"] = (rc, out) ->
  rc <> 0%Z -> rc <> 3%Z ->
  get_repository_info check_install_result process w =
    (Raise SystemExit,
     after w [CheckInstall "bzr help";
              Execute ["bzr"; "config"; "submit_branch"]]).
Proof.
  intros Hinst Hurl Hp H0 H3.
  rewrite (repository_info_lookup w Hinst Hurl). cbn [first_branch].
  unfold bind.
  rewrite (get_config_dies "submit_branch" (after w [CheckInstall "bzr help"])
             rc out Hp H0 H3).
  now rewrite after_after.
Qed.

(** X3: a [submit_branch] that is set to nothing but whitespace counts
    as set: the test is [is not None], so [get_repository_info] returns
    a repository whose path is the empty string and does not go on to
    [parent_location]. *)
Theorem blank_submit_branch_is_taken (w : World) (rc : Z) (out : string) :
  check_install_result (trace w) "bzr help" = true ->
  truthy (repository_url (options w)) = false ->
  process (trace w ++ [CheckInstall "bzr help"])
          ["bzr"; "config"; "submit_branch"] = (rc, out) ->
  rc = 0%Z \/ rc = 3%Z ->
  all_space out = true ->
  get_repository_info check_install_result process w =
    (Ok (Some (mkRepositoryInfo EmptyString "/" true)),
     after w [CheckInstall "bzr help";
              Execute ["bzr"; "config"; "submit_branch"]]).
Proof.
  intros Hinst Hurl Hp Hrc Hsp.
  rewrite (repository_info_lookup w Hinst Hurl). cbn [first_branch].
  unfold bind.
  rewrite (get_config_value "submit_branch" (after w [CheckInstall "bzr help"])
             rc out Hp Hrc).
  destruct (blank_output_is_a_value "submit_branch" out Hsp) as [Hc Hr].
  rewrite Hc, Hr. unfold ret. now rewrite after_after.
Qed.

(** The loop over the two keys runs the first query, and the second
    one only after it. *)
Lemma first_branch_world (w : World) :
  exists es,
    snd (first_branch process ["submit_branch"; "parent_location"] None w)
      = after w es /\
    (es = [Execute ["bzr"; "config"; "submit_branch"]] \/
     es = [Execute ["bzr"; "config"; "submit_branch"];
           Execute ["bzr"; "config"; "parent_location"]]).
Proof.
  cbn [first_branch]. unfold bind.
  pose proof (get_config_world "submit_branch" w) as H1.
  destruct (_get_config process "submit_branch" w) as [[[b|]|e] w1];
    simpl in H1; subst w1.
  - eexists. split; [reflexivity | now left].
  - pose proof (get_config_world "parent_location"
                  (after w [Execute ["bzr"; "config"; "submit_branch"]])) as H2.
    destruct (_get_config process "parent_location" _) as [[[b|]|e] w2];
      simpl in H2; subst w2; rewrite after_after;
      (eexists; split; [reflexivity | now right]).
  - eexists. split; [reflexivity | now left].
Qed.

(** X5: [get_repository_info] leaves the options alone and runs, after
    the installation check, at most the query for [submit_branch] and
    then the query for [parent_location]; it runs nothing else. *)
Theorem repository_info_only_queries (w : World) :
  exists es,
    snd (get_repository_info check_install_result process w) =
      after w (CheckInstall "bzr help" :: es) /\
    (es = [] \/
     es = [Execute ["bzr"; "config"; "submit_branch"]] \/
     es = [Execute ["bzr"; "config"; "submit_branch"];
           Execute ["bzr"; "config"; "parent_location"]]).
Proof.
  destruct (check_install_result (trace w) "bzr help") eqn:Hinst.
  - destruct (truthy (repository_url (options w))) eqn:Hurl.
    + exists []. split; [|now left].
      unfold get_repository_info, check_install, get_options.
      unfold bind at 1. rewrite Hinst. cbn [negb]. unfold bind at 1.
      cbn [options]. now rewrite Hurl.
    + rewrite (repository_info_lookup w Hinst Hurl). unfold bind.
      destruct (first_branch_world (after w [CheckInstall "bzr help"]))
        as (es & Hw & Hes).
      exists es. split; [|now right].
      destruct (first_branch process _ None _) as [[[b|]|e] w1];
        simpl in Hw; subst w1; unfold ret; simpl; now rewrite after_after.
  - exists []. split; [|now left].
    now rewrite (not_installed_no_repository_world w Hinst).
Qed.

(** X4: a repository is reported only when [bzr] is installed, and
    every repository reported has base path [/] and supports parent
    diffs. *)
Theorem repository_info_shape (w w' : World) (info : RepositoryInfo) :
  get_repository_info check_install_result process w = (Ok (Some info), w') ->
  check_install_result (trace w) "bzr help" = true /\
  base_path info = "/" /\
  supports_parent_diffs info = true.
Proof.
  intros H. destruct (check_install_result (trace w) "bzr help") eqn:Hinst.
  - split; [reflexivity|].
    destruct (truthy (repository_url (options w))) eqn:Hurl.
    + unfold get_repository_info, check_install, get_options in H.
      unfold bind at 1 in H. rewrite Hinst in H. cbn [negb] in H.
      unfold bind at 1 in H. cbn [options] in H. rewrite Hurl in H.
      inversion H; subst. split; reflexivity.
    + rewrite (repository_info_lookup w Hinst Hurl) in H. unfold bind in H.
      destruct (first_branch process _ None _) as [[[b|]|e] w1];
        inversion H; subst. split; reflexivity.
  - rewrite (not_installed_no_repository_world w Hinst) in H. discriminate H.
Qed.

Variable base_scan_for_server : option RepositoryInfo -> M (option string).

(** X14: [scan_for_server] asks for [reviewboard_url] first.  A value,
    even an empty one, is the answer and the scan of the base class is
    not consulted; only when the option does not exist is the answer
    that of the base class, run after the query. *)
Theorem scan_for_server_prefers_config (repository_info : option RepositoryInfo)
    (w : World) (rc : Z) (out : string) :
  process (trace w) ["bzr"; "config"; "reviewboard_url"] = (rc, out) ->
  rc = 0%Z \/ rc = 3%Z ->
  (~ occurs_in (config_missing_message "reviewboard_url") out ->
   scan_for_server process base_scan_for_server repository_info w =
     (Ok (Some (rstrip out)),
      after w [Execute ["bzr"; "config"; "reviewboard_url"]])) /\
  (occurs_in (config_missing_message "reviewboard_url") out ->
   scan_for_server process base_scan_for_server repository_info w =
     base_scan_for_server repository_info
       (after w [Execute ["bzr"; "config"; "reviewboard_url"]])).
Proof.
  intros Hp Hrc. unfold scan_for_server, bind.
  rewrite (get_config_value "reviewboard_url" w rc out Hp Hrc). split.
  - intros Hno. apply contains_false_iff in Hno. now rewrite Hno.
  - intros Hin. apply contains_iff in Hin. now rewrite Hin.
Qed.

(** *** The steps of a diff, one by one *)

Lemma extract_description_runs (revision_range : option string) (w : World) :
  let command := changelog_command (options w) revision_range in
  let changelog := rstrip (snd (process (trace w) command)) in
  _extract_description process debug_defined revision_range w =
    if debug_defined
    then (Ok changelog,
          after w [Execute command;
                   Debug ("Changelog:" ++ newline ++ changelog)%string])
    else (Raise NameError, after w [Execute command]).
Proof.
  intros command changelog. unfold _extract_description.
  unfold bind at 1, get_options.
  assert (Hc : command =
    (if truthy revision_range
     then ["bzr"] ++ ["log"; "-n1"; "--gnu-changelog";
                      "--exclude-common-ancestry"; "-r"; str_of revision_range]
     else ["bzr"] ++ ["missing"; "-q"; "--mine-only"; "--gnu-changelog";
                      (if truthy (parent_branch (options w))
                       then str_of (parent_branch (options w))
                       else ":submit")]) ++ ["--short"]).
  { unfold command, changelog_command. now destruct (truthy revision_range). }
  rewrite <- Hc. unfold bind at 1. unfold execute.
  subst changelog. destruct (process (trace w) command) as [rc out].
  rewrite orb_true_r. cbn [orb snd]. unfold bind, debug.
  destruct debug_defined; [|reflexivity].
  unfold emit, ret, after. cbn [options trace]. now rewrite <- app_assoc.
Qed.

Lemma set_description_guesses (revision_range : option string) (w : World) :
  guess_description (options w) && negb (truthy (description (options w)))
    = true ->
  let command := changelog_command (options w) revision_range in
  let changelog := rstrip (snd (process (trace w) command)) in
  _set_description process debug_defined revision_range w =
    if debug_defined
    then (Ok tt,
          mkWorld (with_description (options w) changelog)
                  (trace w ++ [Execute command;
                               Debug ("Changelog:" ++ newline ++ changelog)%string]))
    else (Raise NameError, after w [Execute command]).
Proof.
  intros G command changelog. unfold _set_description.
  unfold bind at 1, get_options. rewrite G. unfold bind.
  rewrite extract_description_runs. fold command. fold changelog.
  now destruct debug_defined.
Qed.

Lemma set_summary_log_fails (revision : string) (w : World) (rc : Z)
    (out : string) :
  guess_summary (options w) && negb (truthy (summary (options w))) = true ->
  process (trace w) ["bzr"; "log"; "-r"; revision; "--line"] = (rc, out) ->
  rc <> 0%Z ->
  _set_summary process debug_defined revision w =
    (Raise SystemExit, after w [Execute ["bzr"; "log"; "-r"; revision; "--line"]]).
Proof.
  intros G Hp Hrc. unfold _set_summary. unfold bind at 1, get_options.
  rewrite G. unfold bind at 1. unfold _extract_summary. unfold bind at 1.
  rewrite (execute_dies _ false [] w rc out Hp); [reflexivity|].
  apply Z.eqb_neq in Hrc. simpl. now rewrite Hrc.
Qed.

Lemma set_summary_guesses (revision : string) (w : World)
    (out pre d post : string) :
  guess_summary (options w) && negb (truthy (summary (options w))) = true ->
  process (trace w) ["bzr"; "log"; "-r"; revision; "--line"] = (0%Z, out) ->
  Re.first_match Re.iso_date (rstrip out) pre d post ->
  _set_summary process debug_defined revision w =
    if debug_defined
    then (Ok tt,
          mkWorld (with_summary (options w) (slice_from 1 post))
                  (trace w ++ [Execute ["bzr"; "log"; "-r"; revision; "--line"];
                               Debug ("Summary: " ++ slice_from 1 post)%string]))
    else (Raise NameError,
          after w [Execute ["bzr"; "log"; "-r"; revision; "--line"]]).
Proof.
  intros G Hp Hm. unfold _set_summary. unfold bind at 1, get_options.
  rewrite G. unfold bind.
  rewrite (extract_summary_after_first_date revision w out pre d post Hp Hm).
  now destruct debug_defined.
Qed.

(** [_extract_summary] leaves the options alone and starts with the log
    command. *)
Lemma extract_summary_world (revision : string) (w : World) :
  exists evs,
    snd (_extract_summary process debug_defined revision w) =
      after w (Execute ["bzr"; "log"; "-r"; revision; "--line"] :: evs) /\
    forallb (fun ev => negb (runs_missing ev)) evs = true.
Proof.
  unfold _extract_summary. unfold bind at 1.
  rewrite (surjective_pairing (execute process _ false [] w)), execute_world.
  destruct (fst (execute process _ false [] w)) as [out|e].
  - destruct (Re.search Re.iso_date (rstrip out)) as [m|].
    + unfold bind, debug. destruct debug_defined.
      * eexists [_]. unfold emit, ret, after. cbn [options trace snd].
        split; [now rewrite <- app_assoc | reflexivity].
      * exists []. split; reflexivity.
    + exists []. split; reflexivity.
  - exists []. split; reflexivity.
Qed.

(** It returns only with [debug] bound. *)
Lemma extract_summary_ok_bound (revision : string) (w w' : World) (v : string) :
  _extract_summary process debug_defined revision w = (Ok v, w') ->
  debug_defined = true.
Proof.
  unfold _extract_summary. unfold bind at 1.
  destruct (execute process _ false [] w) as [[out|e] w1]; [|discriminate].
  destruct (Re.search Re.iso_date (rstrip out)); [|discriminate].
  unfold bind, debug. now destruct debug_defined.
Qed.

(** The two guessing steps, when they raise, have written nothing. *)
Lemma set_summary_raises_clean (revision : string) (w w' : World) (e : exn) :
  _set_summary process debug_defined revision w = (Raise e, w') ->
  options w' = options w.
Proof.
  unfold _set_summary. unfold bind at 1, get_options.
  destruct (guess_summary (options w) && negb (truthy (summary (options w))));
    [|discriminate].
  unfold bind. destruct (extract_summary_world revision w) as (evs & Hw & _).
  destruct (_extract_summary process debug_defined revision w) as [[v|e'] w1];
    simpl in Hw; subst w1; [discriminate|].
  intros H. now inversion H.
Qed.

Lemma set_summary_ok_cases (revision : string) (w w' : World) :
  _set_summary process debug_defined revision w = (Ok tt, w') ->
  w' = w \/ debug_defined = true.
Proof.
  unfold _set_summary. unfold bind at 1, get_options.
  destruct (guess_summary (options w) && negb (truthy (summary (options w)))).
  - unfold bind.
    destruct (_extract_summary process debug_defined revision w)
      as [[v|e'] w1] eqn:E; [|discriminate].
    intros _. right. eapply extract_summary_ok_bound; eassumption.
  - intros H. left. now inversion H.
Qed.

Lemma set_description_raises_clean (revision_range : option string)
    (w w' : World) (e : exn) :
  _set_description process debug_defined revision_range w = (Raise e, w') ->
  options w' = options w /\ debug_defined = false.
Proof.
  destruct (guess_description (options w) &&
            negb (truthy (description (options w)))) eqn:G.
  - rewrite (set_description_guesses revision_range w G).
    destruct debug_defined; [discriminate|].
    intros H. inversion H. split; reflexivity.
  - rewrite (set_description_skips _ _ G). discriminate.
Qed.

(** The tail both public operations share: guess the summary, guess the
    description, return the diff. *)
Lemma guessing_raises_clean {A : Type} (revision : string)
    (revision_range : option string) (a : A) (w w' : World) (e : exn) :
  bind (_set_summary process debug_defined revision)
       (fun _ => bind (_set_description process debug_defined revision_range)
                      (fun _ => ret a)) w = (Raise e, w') ->
  options w' = options w.
Proof.
  unfold bind.
  destruct (_set_summary process debug_defined revision w)
    as [[[]|e1] w1] eqn:E1.
  - destruct (_set_description process debug_defined revision_range w1)
      as [[[]|e2] w2] eqn:E2; [discriminate|].
    intros H. inversion H; subst.
    destruct (set_description_raises_clean _ _ _ _ E2) as [Ho Hd].
    destruct (set_summary_ok_cases _ _ _ E1) as [-> | Hb]; [exact Ho|].
    congruence.
  - intros H. inversion H; subst.
    eapply set_summary_raises_clean; eassumption.
Qed.

(** *** The public operations as a whole *)

Lemma diff_steps (files : option (list string)) (w : World) :
  let revision_range :=
    if truthy (parent_branch (options w))
    then ("ancestor:" ++ str_of (parent_branch (options w)) ++ "..")%string
    else "submit:.." in
  let argv := ["bzr"; "dif"; "-q"; "-r"; revision_range] ++ or_else files [] in
  let out := snd (process (trace w ++ [Print argv]) argv) in
  diff process debug_defined files w =
    bind (_set_summary process debug_defined "-1")
      (fun _ => bind (_set_description process debug_defined
                        (Some revision_range))
                     (fun _ => ret (if is_empty out then None else Some out,
                                    @None string)))
      (after w [Print argv; Execute argv]).
Proof.
  intros revision_range argv out. unfold diff.
  unfold bind at 1. unfold get_options at 1. unfold bind at 1.
  cbn [options]. fold revision_range. now rewrite range_diff_returns.
Qed.

Lemma diff_between_revisions_steps (revision_range : string)
    (files : list string) (repository_info : option RepositoryInfo)
    (w : World) :
  let argv := ["bzr"; "dif"; "-q"; "-r"; revision_range] ++ files in
  let out := snd (process (trace w ++ [Print argv]) argv) in
  diff_between_revisions process debug_defined revision_range files
    repository_info w =
    match nth_error (split ".." revision_range) 1 with
    | None => (Raise IndexError, after w [Print argv; Execute argv])
    | Some last_revision =>
        bind (_set_summary process debug_defined last_revision)
          (fun _ => bind (_set_description process debug_defined
                            (Some revision_range))
                         (fun _ => ret (if is_empty out then None
                                        else Some out)))
          (after w [Print argv; Execute argv])
    end.
Proof.
  intros argv out. unfold diff_between_revisions. unfold bind at 1.
  rewrite range_diff_returns.
  now destruct (nth_error (split ".." revision_range) 1).
Qed.

(** X13: a [diff] or a [diff_between_revisions] that raises has written
    nothing: the options are as they were before the call. *)
Theorem failed_diff_writes_nothing (files : option (list string))
    (revision_range : string) (file_list : list string)
    (repository_info : option RepositoryInfo) (w : World) :
  (forall e w',
     diff process debug_defined files w = (Raise e, w') ->
     options w' = options w) /\
  (forall e w',
     diff_between_revisions process debug_defined revision_range file_list
       repository_info w = (Raise e, w') ->
     options w' = options w).
Proof.
  split; intros e w'.
  - rewrite diff_steps. intros H.
    now rewrite (guessing_raises_clean _ _ _ _ _ _ H).
  - rewrite diff_between_revisions_steps.
    destruct (nth_error (split ".." revision_range) 1).
    + intros H. now rewrite (guessing_raises_clean _ _ _ _ _ _ H).
    + intros H. now inversion H.
Qed.

(** X15: whatever they return, [diff] and [diff_between_revisions]
    leave the repository URL, the parent branch and the two guess flags
    as they were, and change the summary or the description only where
    it was to be guessed and empty. *)
Theorem public_operations_only_fill (files : option (list string))
    (revision_range : string) (file_list : list string)
    (repository_info : option RepositoryInfo) (w : World) :
  only_fills (options w) (options (snd (diff process debug_defined files w)))
  /\
  only_fills (options w)
    (options (snd (diff_between_revisions process debug_defined revision_range
                     file_list repository_info w))).
Proof.
  split.
  - apply diff_advances.
  - apply diff_between_revisions_advances.
Qed.

(** X16: when the summary is to be guessed and the log command exits
    with a status other than zero, [diff] ends the run with SystemExit
    right after the diff and the log, and the description is never
    attempted. *)
Theorem diff_dies_with_log (files : option (list string)) (w : World)
    (rc : Z) (out : string) :
  let revision_range :=
    if truthy (parent_branch (options w))
    then ("ancestor:" ++ str_of (parent_branch (options w)) ++ "..")%string
    else "submit:.." in
  let argv := ["bzr"; "dif"; "-q"; "-r"; revision_range] ++ or_else files [] in
  guess_summary (options w) && negb (truthy (summary (options w))) = true ->
  process (trace w ++ [Print argv; Execute argv])
          ["bzr"; "log"; "-r"; "-1"; "--line"] = (rc, out) ->
  rc <> 0%Z ->
  diff process debug_defined files w =
    (Raise SystemExit,
     after w [Print argv; Execute argv;
              Execute ["bzr"; "log"; "-r"; "-1"; "--line"]]).
Proof.
  intros revision_range argv G Hp Hrc. rewrite diff_steps.
  fold revision_range. fold argv. unfold bind at 1.
  rewrite (set_summary_log_fails "-1" (after w [Print argv; Execute argv])
             rc out G Hp Hrc).
  now rewrite after_after.
Qed.

(** X9: [_extract_summary] returns a summary only if [debug] is bound,
    the log command exited with zero and its output has a date; the
    summary is then what follows the first date in the stripped output,
    less one character. *)
Theorem extract_summary_returns_after_date (revision : string)
    (w w' : World) (v : string) :
  _extract_summary process debug_defined revision w = (Ok v, w') ->
  debug_defined = true /\
  exists out pre d post,
    process (trace w) ["bzr"; "log"; "-r"; revision; "--line"] = (0%Z, out) /\
    Re.first_match Re.iso_date (rstrip out) pre d post /\
    v = slice_from 1 post.
Proof.
  intros H. split; [eapply extract_summary_ok_bound; eassumption|].
  destruct (process (trace w) ["bzr"; "log"; "-r"; revision; "--line"])
    as [rc out] eqn:Hp.
  destruct (Z.eq_dec rc 0) as [-> | Hrc].
  - destruct (Re.search Re.iso_date (rstrip out)) as [[i j]|] eqn:Hs.
    + destruct (ReFacts.search_from_some _ 0 _ i j Hs)
        as (pre & d & post & Hf & _).
      rewrite (extract_summary_after_first_date revision w out pre d post Hp Hf)
        in H.
      exists out, pre, d, post. repeat split; try assumption;
        try apply Hf.
      destruct debug_defined; [now inversion H | discriminate H].
    + unfold _extract_summary in H. unfold bind at 1 in H.
      rewrite (execute_ok _ false [] w 0%Z out Hp eq_refl) in H.
      rewrite Hs in H. discriminate H.
  - unfold _extract_summary in H. unfold bind at 1 in H.
    rewrite (execute_dies _ false [] w rc out Hp) in H; [discriminate H|].
    apply Z.eqb_neq in Hrc. simpl. now rewrite Hrc.
Qed.

(** *** Explicit ranges *)

Lemma trace_of_bind {A B : Type} (m : M A) (k : A -> M B) (w : World) :
  (forall a w1, exists evs, trace (snd (k a w1)) = trace w1 ++ evs) ->
  exists evs, trace (snd (bind m k w)) = trace (snd (m w)) ++ evs.
Proof.
  intros Hk. unfold bind. destruct (m w) as [[a|e] w1]; simpl.
  - apply Hk.
  - exists []. now rewrite app_nil_r.
Qed.

Lemma set_summary_starts_with_log (revision : string) (w : World) :
  guess_summary (options w) && negb (truthy (summary (options w))) = true ->
  exists evs,
    trace (snd (_set_summary process debug_defined revision w)) =
      trace w ++ Execute ["bzr"; "log"; "-r"; revision; "--line"] :: evs.
Proof.
  intros G. unfold _set_summary. unfold bind at 1, get_options. rewrite G.
  unfold bind. destruct (extract_summary_world revision w) as (evs & Hw & _).
  destruct (_extract_summary process debug_defined revision w) as [[v|e] w1];
    simpl in Hw; subst w1; exists evs; reflexivity.
Qed.

(** X10: for a range written [from..to], with the first two dots those
    after [from], the revision whose log gives the summary is [to], up
    to any further two dots in it: when the summary is to be guessed,
    the command [diff_between_revisions] runs right after the diff is
    the one-line log of that revision. *)
Theorem explicit_range_summary_revision (from to : string)
    (files : list string) (repository_info : option RepositoryInfo)
    (w : World) :
  ~ occurs_in ".." (from ++ ".") ->
  guess_summary (options w) && negb (truthy (summary (options w))) = true ->
  let argv := ["bzr"; "dif"; "-q"; "-r"; (from ++ ".." ++ to)%string] ++ files in
  exists rest,
    trace (snd (diff_between_revisions process debug_defined
                  (from ++ ".." ++ to) files repository_info w)) =
    trace w ++
      [Print argv; Execute argv;
       Execute ["bzr"; "log"; "-r"; hd EmptyString (split ".." to); "--line"]]
      ++ rest.
Proof.
  intros Hno G argv. apply contains_false_iff in Hno.
  rewrite diff_between_revisions_steps. fold argv.
  rewrite (split_first_dots from to Hno), (split_head ".." to).
  cbn [nth_error].
  set (w1 := after w [Print argv; Execute argv]).
  destruct (set_summary_starts_with_log (hd EmptyString (split ".." to)) w1 G)
    as (evs & Hs).
  match goal with
  | |- context [snd (bind ?m ?k w1)] =>
      destruct (trace_of_bind m k w1) as (evs' & Hb)
  end.
  { intros _ w2.
    destruct (set_description_advances (Some (from ++ ".." ++ to)%string) w2)
      as [_ [e2 H2]].
    match goal with
    | |- context [snd (bind ?m ?k w2)] =>
        destruct (trace_of_bind m k w2) as (e3 & H3)
    end.
    { intros _ w3. exists []. simpl. now rewrite app_nil_r. }
    exists (e2 ++ e3). now rewrite H3, H2, app_assoc. }
  exists (evs ++ evs'). rewrite Hb, Hs. unfold w1, after. cbn [trace].
  now rewrite <- !app_assoc.
Qed.

(** X11: for a range with two dots in it and nothing to be guessed,
    [diff_between_revisions] returns the diff of the range, [None] when
    the diff is empty, having run the diff command and nothing else. *)
Theorem explicit_range_plain_diff (revision_range : string)
    (files : list string) (repository_info : option RepositoryInfo)
    (w : World) :
  occurs_in ".." revision_range ->
  guess_summary (options w) && negb (truthy (summary (options w))) = false ->
  guess_description (options w) && negb (truthy (description (options w)))
    = false ->
  let argv := ["bzr"; "dif"; "-q"; "-r"; revision_range] ++ files in
  let out := snd (process (trace w ++ [Print argv]) argv) in
  diff_between_revisions process debug_defined revision_range files
    repository_info w =
    (Ok (if is_empty out then None else Some out),
     after w [Print argv; Execute argv]).
Proof.
  intros Hin Gs Gd argv out. apply contains_iff in Hin.
  rewrite diff_between_revisions_steps. fold argv. fold out.
  destruct (split_with_sep_has_second ".." revision_range) as (a & b & l & Hs);
    [discriminate | exact Hin |].
  rewrite Hs. cbn [nth_error]. unfold bind.
  rewrite (set_summary_skips b (after w [Print argv; Execute argv]) Gs).
  now rewrite (set_description_skips (Some revision_range)
                 (after w [Print argv; Execute argv]) Gd).
Qed.

(** *** The branch that is never taken *)

Lemma grows_by_refl (ok : event -> bool) (w : World) : grows_by ok w w.
Proof. exists []. split; [now rewrite app_nil_r | reflexivity]. Qed.

Lemma grows_by_trans (ok : event -> bool) (a b c : World) :
  grows_by ok a b -> grows_by ok b c -> grows_by ok a c.
Proof.
  intros (e1 & T1 & F1) (e2 & T2 & F2). exists (e1 ++ e2). split.
  - now rewrite T2, T1, app_assoc.
  - now rewrite forallb_app, F1, F2.
Qed.

Lemma grows_by_after (ok : event -> bool) (w : World) (evs : list event) :
  forallb ok evs = true -> grows_by ok w (after w evs).
Proof. intros H. exists evs. split; [reflexivity | exact H]. Qed.

Lemma bind_grows_by {A B : Type} (ok : event -> bool) (m : M A)
    (k : A -> M B) (w : World) :
  grows_by ok w (snd (m w)) ->
  (forall a, grows_by ok (snd (m w)) (snd (k a (snd (m w))))) ->
  grows_by ok w (snd (bind m k w)).
Proof.
  intros Hm Hk. unfold bind. destruct (m w) as [[a|e] w1]; simpl in *.
  - eapply grows_by_trans; [exact Hm | apply Hk].
  - exact Hm.
Qed.

Lemma set_summary_quiet (revision : string) (w : World) :
  grows_by (fun ev => negb (runs_missing ev)) w
    (snd (_set_summary process debug_defined revision w)).
Proof.
  unfold _set_summary. unfold bind at 1, get_options.
  destruct (guess_summary (options w) && negb (truthy (summary (options w))));
    [|apply grows_by_refl].
  unfold bind. destruct (extract_summary_world revision w) as (evs & Hw & Hq).
  destruct (_extract_summary process debug_defined revision w) as [[v|e] w1];
    simpl in Hw; subst w1; eexists; (split; [reflexivity|]); simpl; exact Hq.
Qed.

Lemma set_description_quiet (revision_range : string) (w : World) :
  revision_range <> EmptyString ->
  grows_by (fun ev => negb (runs_missing ev)) w
    (snd (_set_description process debug_defined (Some revision_range) w)).
Proof.
  intros Hne.
  destruct (guess_description (options w) &&
            negb (truthy (description (options w)))) eqn:G.
  - rewrite (set_description_guesses (Some revision_range) w G).
    unfold changelog_command.
    destruct revision_range as [|c r]; [contradiction|]. cbn [truthy].
    destruct debug_defined; eexists; (split; [reflexivity|]); reflexivity.
  - rewrite (set_description_skips _ _ G). apply grows_by_refl.
Qed.

(** X12: neither [diff] nor [diff_between_revisions] ever runs
    [bzr missing]: the description is always asked for with a range
    that is not empty, so the branch of [_extract_description] for a
    missing range is never taken from them. *)
Theorem public_operations_never_run_missing (files : option (list string))
    (revision_range : string) (file_list : list string)
    (repository_info : option RepositoryInfo) (w : World) :
  grows_by (fun ev => negb (runs_missing ev)) w
    (snd (diff process debug_defined files w)) /\
  grows_by (fun ev => negb (runs_missing ev)) w
    (snd (diff_between_revisions process debug_defined revision_range
            file_list repository_info w)).
Proof.
  split.
  - rewrite diff_steps.
    match goal with
    | |- grows_by _ _ (snd (bind _ _ ?w1)) =>
        apply (grows_by_trans _ w w1); [now apply grows_by_after|]
    end.
    apply bind_grows_by; [apply set_summary_quiet|].
    intros _. apply bind_grows_by; [|intros _; apply grows_by_refl].
    apply set_description_quiet.
    destruct (truthy (parent_branch (options w))); discriminate.
  - rewrite diff_between_revisions_steps.
    destruct (nth_error (split ".." revision_range) 1) as [last|] eqn:E.
    + match goal with
      | |- grows_by _ _ (snd (bind _ _ ?w1)) =>
          apply (grows_by_trans _ w w1); [now apply grows_by_after|]
      end.
      apply bind_grows_by; [apply set_summary_quiet|].
      intros _. apply bind_grows_by; [|intros _; apply grows_by_refl].
      apply set_description_quiet.
      intros ->. discriminate E.
    + now apply grows_by_after.
Qed.

(** With [debug] unbound a guess that is needed always raises. *)
Lemma set_summary_unbound (revision : string) (w : World) :
  debug_defined = false ->
  guess_summary (options w) && negb (truthy (summary (options w))) = true ->
  exists e w', _set_summary process debug_defined revision w = (Raise e, w').
Proof.
  intros Hd G. unfold _set_summary. unfold bind at 1, get_options.
  rewrite G. unfold bind.
  destruct (_extract_summary process debug_defined revision w)
    as [[v|e] w1] eqn:E.
  - rewrite (extract_summary_ok_bound _ _ _ _ E) in Hd. discriminate.
  - now exists e, w1.
Qed.

End ClientFacts.

(** ** The public operations with [debug] bound, and as the module stands *)

Section PublicFacts.

Import PyStr PyStrFacts.

Variable process : list event -> list string -> Z * string.

(** X6: with [debug] bound, a summary and a description to be guessed
    and a one-line log that has a date, [diff] runs three commands in
    this order: the diff of the range, the one-line log of revision
    [-1], the changelog of the range.  It returns the diff paired with
    [None], the summary is what follows the first date of the log and
    the description is the stripped changelog, whatever the diff and
    the changelog commands exit with. *)
Theorem pending_diff_guesses (files : option (list string)) (w : World)
    (log pre d post : string) :
  let revision_range :=
    if truthy (parent_branch (options w))
    then ("ancestor:" ++ str_of (parent_branch (options w)) ++ "..")%string
    else "submit:.." in
  let diff_cmd :=
    ["bzr"; "dif"; "-q"; "-r"; revision_range] ++ or_else files [] in
  let out := snd (process (trace w ++ [Print diff_cmd]) diff_cmd) in
  let log_cmd := ["bzr"; "log"; "-r"; "-1"; "--line"] in
  let t2 := trace w ++ [Print diff_cmd; Execute diff_cmd] in
  let guessed := slice_from 1 post in
  let t3 := t2 ++ [Execute log_cmd; Debug ("Summary: " ++ guessed)%string] in
  let changelog_cmd :=
    ["bzr"; "log"; "-n1"; "--gnu-changelog"; "--exclude-common-ancestry";
     "-r"; revision_range; "--short"] in
  let changelog := rstrip (snd (process t3 changelog_cmd)) in
  guess_summary (options w) && negb (truthy (summary (options w))) = true ->
  guess_description (options w) && negb (truthy (description (options w)))
    = true ->
  process t2 log_cmd = (0%Z, log) ->
  Re.first_match Re.iso_date (rstrip log) pre d post ->
  diff process true files w =
    (Ok (if is_empty out then None else Some out, None),
     mkWorld (with_description (with_summary (options w) guessed) changelog)
             (t3 ++ [Execute changelog_cmd;
                     Debug ("Changelog:" ++ newline ++ changelog)%string])).
Proof.
  intros revision_range diff_cmd out log_cmd t2 guessed t3 changelog_cmd
         changelog Gs Gd Hp Hm.
  rewrite (diff_steps process true files w).
  fold revision_range. fold diff_cmd. fold out. unfold bind at 1.
  rewrite (set_summary_guesses process true "-1"
             (after w [Print diff_cmd; Execute diff_cmd]) log pre d post
             Gs Hp Hm).
  fold guessed. cbn [after options trace]. fold t2. fold log_cmd. fold t3.
  unfold bind at 1.
  rewrite (set_description_guesses process true (Some revision_range)
             (mkWorld (with_summary (options w) guessed) t3) Gd).
  cbn [options trace].
  assert (Hc : changelog_command (with_summary (options w) guessed)
                 (Some revision_range) = changelog_cmd).
  { unfold changelog_command, changelog_cmd, revision_range.
    now destruct (truthy (parent_branch (options w))). }
  rewrite Hc. fold changelog. reflexivity.
Qed.

(** With [debug] unbound the two guessing steps return only when there
    is nothing to guess, and never write. *)
Lemma guessing_unbound {A : Type} (revision : string)
    (revision_range : option string) (a : A) (w : World) :
  options
    (snd (bind (_set_summary process false revision)
            (fun _ => bind (_set_description process false revision_range)
                           (fun _ => ret a)) w)) = options w /\
  ((exists v w',
      bind (_set_summary process false revision)
        (fun _ => bind (_set_description process false revision_range)
                       (fun _ => ret a)) w = (Ok v, w')) <->
   guess_summary (options w) && negb (truthy (summary (options w))) = false /\
   guess_description (options w) && negb (truthy (description (options w)))
     = false).
Proof.
  destruct (guess_summary (options w) && negb (truthy (summary (options w))))
    eqn:Gs.
  - destruct (set_summary_unbound process false revision w eq_refl Gs)
      as (e & w1 & H1).
    unfold bind. rewrite H1. simpl. split.
    + eapply set_summary_raises_clean; eassumption.
    + split; [intros (v & w' & H); discriminate | intros [H _]; discriminate].
  - unfold bind. rewrite (set_summary_skips process false revision w Gs).
    destruct (guess_description (options w) &&
              negb (truthy (description (options w)))) eqn:Gd.
    + rewrite (set_description_guesses process false revision_range w Gd).
      simpl. split; [reflexivity|].
      split; [intros (v & w' & H); discriminate | intros [_ H]; discriminate].
    + rewrite (set_description_skips process false revision_range w Gd).
      simpl. split; [reflexivity|].
      split; [auto | intros _; now exists a, w].
Qed.

(** X7: as the module stands, with [debug] unbound, [diff] never changes
    the options, and it returns exactly when there is neither a summary
    nor a description to guess: a guess that is needed always ends in
    an exception. *)
Theorem diff_as_it_stands (files : option (list string)) (w : World) :
  options (snd (diff process false files w)) = options w /\
  ((exists v w', diff process false files w = (Ok v, w')) <->
   guess_summary (options w) && negb (truthy (summary (options w))) = false /\
   guess_description (options w) && negb (truthy (description (options w)))
     = false).
Proof.
  rewrite (diff_steps process false files w).
  match goal with
  | |- context [bind (_set_summary process false ?r)
                  (fun _ => bind (_set_description process false ?rr)
                                 (fun _ => ret ?a)) ?w1] =>
      exact (guessing_unbound r rr a w1)
  end.
Qed.

(** X8: as the module stands, [diff_between_revisions] never changes the
    options, and it returns exactly when the range has two dots in it
    and there is neither a summary nor a description to guess. *)
Theorem explicit_range_as_it_stands (revision_range : string)
    (files : list string) (repository_info : option RepositoryInfo)
    (w : World) :
  options (snd (diff_between_revisions process false revision_range files
                  repository_info w)) = options w /\
  ((exists v w',
      diff_between_revisions process false revision_range files
        repository_info w = (Ok v, w')) <->
   occurs_in ".." revision_range /\
   guess_summary (options w) && negb (truthy (summary (options w))) = false /\
   guess_description (options w) && negb (truthy (description (options w)))
     = false).
Proof.
  rewrite (diff_between_revisions_steps process false revision_range files
             repository_info w).
  destruct (contains ".." revision_range) eqn:Hc.
  - destruct (split_with_sep_has_second ".." revision_range)
      as (a & b & l & Hs); [discriminate | exact Hc |].
    rewrite Hs. cbn [nth_error]. apply contains_iff in Hc.
    match goal with
    | |- context [bind (_set_summary process false ?r)
                    (fun _ => bind (_set_description process false ?rr)
                                   (fun _ => ret ?x)) ?w1] =>
        destruct (guessing_unbound r rr x w1) as [Ho Hiff]
    end.
    split; [exact Ho|]. rewrite Hiff. cbn [after options]. tauto.
  - rewrite (split_no_sep _ _ Hc). cbn [nth_error].
    apply contains_false_iff in Hc. split; [reflexivity|].
    split; [intros (v & w' & H); discriminate | intros [H _]; contradiction].
Qed.

End PublicFacts.

(** ** Concrete runs of the client *)

Section RunFacts.

Import PyStr PyStrFacts Run.

(** C2: on the log line of the specification [_extract_summary] finds
    the date, cuts the summary [Fixed the thing] and then calls [debug],
    a name the module does not bind: it raises NameError and returns
    nothing.  With [debug] bound it returns [Fixed the thing]. *)
Theorem extract_summary_unbound_debug :
  _extract_summary (bzr_prints 0 log_line) false "-1" (start guess_options) =
    (Raise NameError,
     after (start guess_options) [Execute ["bzr"; "log"; "-r"; "-1"; "--line"]])
  /\
  _extract_summary (bzr_prints 0 log_line) true "-1" (start guess_options) =
    (Ok "Fixed the thing",
     after (start guess_options)
       [Execute ["bzr"; "log"; "-r"; "-1"; "--line"];
        Debug "Summary: Fixed the thing"]).
Proof. split; reflexivity. Qed.

(** With [debug] bound the summary is written where it was to be
    guessed, so the law of filling is not an empty one. *)
Example summary_is_filled :
  summary (options (snd (_set_summary (bzr_prints 0 log_line) true "-1"
                           (start guess_options)))) =
    Some "Fixed the thing".
Proof. reflexivity. Qed.

(** As the module stands nothing is ever filled in: the guess ends in
    NameError. *)
Example pending_diff_with_guess_raises :
  fst (diff (bzr_prints 0 log_line) false None (start guess_options)) =
    Raise NameError.
Proof. reflexivity. Qed.

(** C7 as the specification words it does not hold: without a parent
    branch the range is [submit:..], with a colon. *)
Lemma pending_range_has_colon : ~ pending_diff_runs_claimed_range.
Proof.
  intros H.
  destruct (H (bzr_prints 0 EmptyString) false None (start no_options))
    as [rest Hr].
  vm_compute in Hr. discriminate Hr.
Qed.

Lemma get_config_absent_or_stripped_witness :
  _get_config bzr_unconfigured "submit_branch" (start no_options) =
    (Ok None,
     after (start no_options) [Execute ["bzr"; "config"; "submit_branch"]]).
Proof.
  apply (proj1 (get_config_absent_or_stripped bzr_unconfigured
                  "submit_branch" (start no_options) 3%Z
                  (config_missing_message "submit_branch" ++ newline)%string
                  eq_refl (or_intror eq_refl))).
  exists EmptyString, newline. reflexivity.
Defined.

Lemma range_diff_empty_is_none_witness :
  fst (_get_range_diff (bzr_prints 1 EmptyString) "submit:.." []
         (start no_options)) = Ok None.
Proof.
  apply (proj1 (range_diff_empty_is_none (bzr_prints 1 EmptyString)
                  "submit:.." [] (start no_options) 1%Z EmptyString eq_refl)).
  reflexivity.
Defined.

Lemma repository_from_first_configured_branch_witness :
  get_repository_info installed bzr_both_configured (start no_options) =
    (Ok (Some (mkRepositoryInfo "lp:trunk" "/" true)),
     after (start no_options)
       [CheckInstall "bzr help"; Execute ["bzr"; "config"; "submit_branch"]]).
Proof.
  apply (proj1 (repository_from_first_configured_branch installed
                  bzr_both_configured (start no_options) eq_refl eq_refl)).
  reflexivity.
Defined.

Lemma explicit_url_short_circuits_witness :
  get_repository_info installed bzr_unconfigured
    (start (mkOptions (Some "lp:myproj") None false false None None)) =
    (Ok (Some (mkRepositoryInfo "lp:myproj" "/" true)),
     after (start (mkOptions (Some "lp:myproj") None false false None None))
       [CheckInstall "bzr help"]).
Proof.
  apply (explicit_url_short_circuits installed bzr_unconfigured
           (start (mkOptions (Some "lp:myproj") None false false None None))
           "lp:myproj" eq_refl eq_refl).
  discriminate.
Defined.

Lemma explicit_range_needs_two_dots_witness :
  diff_between_revisions (bzr_prints 0 EmptyString) false "12" [] None
    (start no_options) =
    (Raise IndexError,
     after (start no_options)
       [Print ["bzr"; "dif"; "-q"; "-r"; "12"];
        Execute ["bzr"; "dif"; "-q"; "-r"; "12"]]).
Proof.
  apply (explicit_range_needs_two_dots (bzr_prints 0 EmptyString) false
           "12" [] None (start no_options)).
  apply contains_false_iff. reflexivity.
Defined.

Lemma extract_summary_needs_date_witness :
  _extract_summary (bzr_prints 0 "123: Jane Doe fixed it") false "-1"
    (start guess_options) =
    (Raise AttributeError,
     after (start guess_options) [Execute ["bzr"; "log"; "-r"; "-1"; "--line"]]).
Proof.
  apply (extract_summary_needs_date (bzr_prints 0 "123: Jane Doe fixed it")
           false "-1" (start guess_options) "123: Jane Doe fixed it" eq_refl).
  apply ReFacts.search_none_iff. reflexivity.
Defined.

End RunFacts.

Section MoreRunFacts.

Import PyStr PyStrFacts Run.

Lemma not_installed_no_repository_witness :
  get_repository_info not_installed bzr_both_configured
    (start (mkOptions (Some "lp:myproj") None false false None None)) =
    (Ok None,
     after (start (mkOptions (Some "lp:myproj") None false false None None))
       [CheckInstall "bzr help"]).
Proof.
  exact (not_installed_no_repository not_installed bzr_both_configured
           (start (mkOptions (Some "lp:myproj") None false false None None))
           eq_refl).
Defined.

Lemma repository_info_dies_with_config_witness :
  get_repository_info installed (bzr_prints 1 "bzr: ERROR") (start no_options) =
    (Raise SystemExit,
     after (start no_options)
       [CheckInstall "bzr help"; Execute ["bzr"; "config"; "submit_branch"]]).
Proof.
  apply (repository_info_dies_with_config installed (bzr_prints 1 "bzr: ERROR")
           (start no_options) 1%Z "bzr: ERROR" eq_refl eq_refl eq_refl);
    discriminate.
Defined.

Lemma blank_submit_branch_is_taken_witness :
  get_repository_info installed (bzr_prints 0 newline) (start no_options) =
    (Ok (Some (mkRepositoryInfo EmptyString "/" true)),
     after (start no_options)
       [CheckInstall "bzr help"; Execute ["bzr"; "config"; "submit_branch"]]).
Proof.
  exact (blank_submit_branch_is_taken installed (bzr_prints 0 newline)
           (start no_options) 0%Z newline eq_refl eq_refl eq_refl
           (or_introl eq_refl) eq_refl).
Defined.

Lemma repository_info_shape_witness :
  installed (trace (start no_options)) "bzr help" = true /\
  base_path (mkRepositoryInfo "lp:trunk" "/" true) = "/" /\
  supports_parent_diffs (mkRepositoryInfo "lp:trunk" "/" true) = true.
Proof.
  exact (repository_info_shape installed bzr_both_configured
           (start no_options)
           (after (start no_options)
              [CheckInstall "bzr help";
               Execute ["bzr"; "config"; "submit_branch"]])
           (mkRepositoryInfo "lp:trunk" "/" true) eq_refl).
Defined.

Lemma scan_for_server_prefers_config_witness :
  scan_for_server (bzr_prints 0 ("http://reviews" ++ newline)) base_scan_nothing
    None (start no_options) =
    (Ok (Some "http://reviews"),
     after (start no_options) [Execute ["bzr"; "config"; "reviewboard_url"]]).
Proof.
  apply (proj1 (scan_for_server_prefers_config
                  (bzr_prints 0 ("http://reviews" ++ newline))
                  base_scan_nothing None (start no_options) 0%Z
                  ("http://reviews" ++ newline)%string eq_refl
                  (or_introl eq_refl))).
  apply contains_false_iff. reflexivity.
Defined.

Lemma log_line_first_date :
  Re.first_match Re.iso_date (rstrip log_line)
    "123: Jane Doe " "2024-01-05" " Fixed the thing".
Proof.
  apply (ReFacts.first_match_of_search _ _ _ _ _ 14 24); reflexivity.
Qed.

Lemma pending_diff_guesses_witness :
  diff (bzr_prints 0 log_line) true None (start guess_options) =
    (Ok (Some log_line, None),
     mkWorld (mkOptions None None true true (Some "Fixed the thing")
                (Some log_line))
       [Print ["bzr"; "dif"; "-q"; "-r"; "submit:.."];
        Execute ["bzr"; "dif"; "-q"; "-r"; "submit:.."];
        Execute ["bzr"; "log"; "-r"; "-1"; "--line"];
        Debug "Summary: Fixed the thing";
        Execute ["bzr"; "log"; "-n1"; "--gnu-changelog";
                 "--exclude-common-ancestry"; "-r"; "submit:.."; "--short"];
        Debug ("Changelog:" ++ newline ++ log_line)]).
Proof.
  exact (pending_diff_guesses (bzr_prints 0 log_line) None
           (start guess_options) log_line
           "123: Jane Doe " "2024-01-05" " Fixed the thing"
           eq_refl eq_refl eq_refl log_line_first_date).
Defined.

Lemma extract_summary_returns_after_date_witness :
  true = true /\
  exists out pre d post,
    bzr_prints 0 log_line (trace (start guess_options))
      ["bzr"; "log"; "-r"; "-1"; "--line"] = (0%Z, out) /\
    Re.first_match Re.iso_date (rstrip out) pre d post /\
    "Fixed the thing" = slice_from 1 post.
Proof.
  exact (extract_summary_returns_after_date (bzr_prints 0 log_line) true "-1"
           (start guess_options)
           (after (start guess_options)
              [Execute ["bzr"; "log"; "-r"; "-1"; "--line"];
               Debug "Summary: Fixed the thing"])
           "Fixed the thing" eq_refl).
Defined.

Lemma explicit_range_summary_revision_witness :
  exists rest,
    trace (snd (diff_between_revisions (bzr_prints 0 log_line) true
                  "1..2" [] None (start guess_options))) =
    trace (start guess_options) ++
      [Print ["bzr"; "dif"; "-q"; "-r"; "1..2"];
       Execute ["bzr"; "dif"; "-q"; "-r"; "1..2"];
       Execute ["bzr"; "log"; "-r"; "2"; "--line"]] ++ rest.
Proof.
  apply (explicit_range_summary_revision (bzr_prints 0 log_line) true
           "1" "2" [] None (start guess_options)).
  - apply contains_false_iff. reflexivity.
  - reflexivity.
Defined.

Lemma explicit_range_plain_diff_witness :
  diff_between_revisions (bzr_prints 1 log_line) false "1..2" [] None
    (start no_options) =
    (Ok (Some log_line),
     after (start no_options)
       [Print ["bzr"; "dif"; "-q"; "-r"; "1..2"];
        Execute ["bzr"; "dif"; "-q"; "-r"; "1..2"]]).
Proof.
  apply (explicit_range_plain_diff (bzr_prints 1 log_line) false "1..2" []
           None (start no_options)).
  - apply contains_iff. reflexivity.
  - reflexivity.
  - reflexivity.
Defined.

Lemma diff_dies_with_log_witness :
  diff (bzr_prints 1 EmptyString) true None (start guess_options) =
    (Raise SystemExit,
     after (start guess_options)
       [Print ["bzr"; "dif"; "-q"; "-r"; "submit:.."];
        Execute ["bzr"; "dif"; "-q"; "-r"; "submit:.."];
        Execute ["bzr"; "log"; "-r"; "-1"; "--line"]]).
Proof.
  apply (diff_dies_with_log (bzr_prints 1 EmptyString) true None
           (start guess_options) 1%Z EmptyString eq_refl eq_refl).
  discriminate.
Defined.

End MoreRunFacts.
